(** * genlayout: schema-driven layout generator of go-winmd

    A shallow embedding of [cmd/genlayout/main.go].  The generator walks a
    list of [tableInfo] values and prints Go source text into one buffer.
    Three layers are kept apart:

    - [Genlayout]: the generator itself, printing text exactly as the Go code
      does ([Fprintf] appends to the buffer, [log.Fatalf] and a slice index
      out of range end the run);
    - [Catalog], [Width], [Decode], [Dispatch], [Registry]: the logical
      content of what was printed, with its rendering back to text and the
      meaning Go gives to that text;
    - [Reader]: the record cursor the printed [decode] methods run against.
*)

From Stdlib Require Import ZArith List String Ascii Bool Lia.
From Stdlib Require Import DecimalString Sorted Permutation.
From Stdlib.Strings Require Import Byte.
Import ListNotations.

Local Open Scope string_scope.
Local Open Scope Z_scope.

(* ================================================================== *)
(** ** Go text primitives *)
(* ================================================================== *)

Module GoText.

(** Tab, newline and the double quote of Go string literals. *)
Definition tab : string := String (ascii_of_nat 9) EmptyString.
Definition nl : string := String (ascii_of_nat 10) EmptyString.
Definition dquote : string := String (ascii_of_nat 34) EmptyString.

(** [strconv.Itoa], also the verb [%d]. *)
Definition Itoa (z : Z) : string := NilEmpty.string_of_int (Z.to_int z).

(** [strings.Join]. *)
Fixpoint Join (elems : list string) (sep : string) : string :=
  match elems with
  | [] => ""
  | [e] => e
  | e :: rest => e ++ sep ++ Join rest sep
  end.

(** [strings.HasPrefix]. *)
Definition HasPrefix (s pre : string) : bool := String.prefix pre s.

(** Concatenation of a list of printed chunks. *)
Fixpoint cat (chunks : list string) : string :=
  match chunks with
  | [] => ""
  | c :: rest => c ++ cat rest
  end.

End GoText.
Import GoText.

(* ================================================================== *)
(** ** Schema model *)
(* ================================================================== *)

(** Modelled from the spec: the declaration of [columnType] is not in
    [main.go]; the seven constants below are the ones the generator
    switches on.  It is a Go integer type, so it has values that are none
    of the named constants: [columnTypeOther] stands for any of them. *)
Inductive columnType : Type :=
| columnTypeUint
| columnTypeString
| columnTypeGUID
| columnTypeBlob
| columnTypeIndex
| columnTypeCodedIndex
| columnTypeSlice
| columnTypeOther.

(** Modelled from the spec: the struct behind [t.fields]; the fields are
    the ones [main.go] reads ([size] is a Go [int]). *)
Record fieldInfo : Type := mkField {
  fname : string;          (* f.name *)
  typeName : string;       (* f.typeName *)
  fcolumnType : columnType;(* f.columnType *)
  size : Z;                (* f.size *)
  ftableName : string;     (* f.tableName *)
  coded : string           (* f.coded *)
}.

(** Modelled from the spec: the struct [tableInfo]; [code] is a [uint8],
    kept as a [Z] together with [uint8_range] where the range matters. *)
Record tableInfo : Type := mkTable {
  name : string;           (* t.name: the Go struct *)
  tableName : string;      (* t.tableName: the constant of type table *)
  code : Z;                (* t.code *)
  exported : bool;         (* t.exported *)
  fields : list fieldInfo  (* t.fields *)
}.

Definition uint8_range (z : Z) : Prop := 0 <= z <= 255.

Definition wrap8 (z : Z) : Z := z mod 256.

(* ================================================================== *)
(** ** The generator monad *)
(* ================================================================== *)

(** How a run of the generator ends. *)
Inductive outcome (A : Type) : Type :=
| Done (a : A)                 (* ran to the end *)
| Panic (msg : string)         (* a Go run-time panic *)
| Fatal (msg : string).        (* log.Fatalf: message, then exit 1 *)
Arguments Done {A} a.
Arguments Panic {A} msg.
Arguments Fatal {A} msg.

(** A generator step reads and extends the buffer [w]. *)
Definition Gen (A : Type) : Type := string -> outcome (A * string).

Definition ret {A} (a : A) : Gen A := fun w => Done (a, w).

Definition bind {A B} (c : Gen A) (k : A -> Gen B) : Gen B :=
  fun w =>
    match c w with
    | Done (a, w') => k a w'
    | Panic m => Panic m
    | Fatal m => Fatal m
    end.

Declare Scope gen_scope.
Delimit Scope gen_scope with gen.
Notation "c ;; k" := (bind c (fun _ => k))
  (at level 61, right associativity) : gen_scope.
Notation "x <- c ;; k" := (bind c (fun x => k))
  (at level 61, c at next level, right associativity) : gen_scope.

(** [fmt.Fprintf(w, ...)] with the verbs already expanded. *)
Definition Fprintf (s : string) : Gen unit := fun w => Done (tt, w ++ s).

Definition panic {A} (msg : string) : Gen A := fun _ => Panic msg.
Definition Fatalf {A} (msg : string) : Gen A := fun _ => Fatal msg.

(** [for _, x := range xs { body }]. *)
Fixpoint forEach {A} (xs : list A) (body : A -> Gen unit) : Gen unit :=
  match xs with
  | [] => ret tt
  | x :: rest => bind (body x) (fun _ => forEach rest body)
  end.

(** [if !cond { continue }] around the rest of a loop body. *)
Definition unlessContinue (cond : bool) (rest : Gen unit) : Gen unit :=
  if cond then rest else ret tt.

(* ================================================================== *)
(** ** sort.Slice *)
(* ================================================================== *)

Section SortSlice.
Context {A : Type} (less : A -> A -> bool).

Fixpoint insertLess (x : A) (sorted : list A) : list A :=
  match sorted with
  | [] => [x]
  | y :: rest => if less x y then x :: y :: rest else y :: insertLess x rest
  end.

(** [sort.Slice] sorts a slice of at most 12 elements with exactly this
    insertion sort, and a longer one with an unstable pattern-defeating
    quicksort.  So [sortSlice] is what [sort.Slice] returns on every slice
    of at most 12 elements and on every slice without two equal keys
    (there is one sorted arrangement then); on a longer slice with equal
    keys [sort.Slice] returns some sorted arrangement of the same
    elements, not necessarily this one.  The order among equal codes
    matters only to the order of the printed constants and to the base of
    [tableMax]; for schemas with equal codes these are stated of every
    arrangement the sort may leave ([printConstants], [generateWith]),
    and a statement made through [catalogOf] describes the run in which
    equal codes keep their schema order, as they do up to 12 tables. *)
Definition sortSlice (xs : list A) : list A :=
  fold_left (fun acc x => insertLess x acc) xs [].
End SortSlice.

(** The comparison and the order of a sort by an integer key. *)
Definition keyLess {A} (key : A -> Z) (a b : A) : bool := key a <? key b.
Definition keyLe {A} (key : A -> Z) (a b : A) : Prop := key a <= key b.

(* ================================================================== *)
(** ** The generator, function by function *)
(* ================================================================== *)

Module Genlayout.
Local Open Scope gen_scope.

(** The anonymous struct of [writeTableValues]. *)
Record entry : Type := mkEntry { ename : string; evalue : Z }.

Definition entryLess (a b : entry) : bool := evalue a <? evalue b.

(** [sorted[len(sorted)-1]]. *)
Definition lastEntry (sorted : list entry) : Gen entry :=
  match rev sorted with
  | [] => panic "runtime error: index out of range [-1]"
  | e :: _ => ret e
  end.

Definition writeTableValues (tables : list tableInfo) : Gen unit :=
  let sorted := map (fun t => mkEntry (tableName t) (code t)) tables in
  let sorted := sortSlice entryLess sorted in
  Fprintf ("// Define table enum" ++ nl) ;;
  Fprintf nl ;;
  Fprintf ("type table uint8" ++ nl) ;;
  Fprintf nl ;;
  Fprintf ("const (" ++ nl) ;;
  forEach sorted (fun t =>
    Fprintf (tab ++ ename t ++ " table = " ++ Itoa (evalue t) ++ nl)) ;;
  Fprintf nl ;;
  last <- lastEntry sorted ;;
  Fprintf (tab ++ "tableMax = " ++ ename last ++ " + 1" ++ nl) ;;
  Fprintf (tab ++ "tableNone = tableMax" ++ nl) ;;
  Fprintf (")" ++ nl).

(** [writeTableValues] from the point where [sorted] has been sorted. *)
Definition printConstants (sorted : list entry) : Gen unit :=
  Fprintf ("// Define table enum" ++ nl) ;;
  Fprintf nl ;;
  Fprintf ("type table uint8" ++ nl) ;;
  Fprintf nl ;;
  Fprintf ("const (" ++ nl) ;;
  forEach sorted (fun t =>
    Fprintf (tab ++ ename t ++ " table = " ++ Itoa (evalue t) ++ nl)) ;;
  Fprintf nl ;;
  last <- lastEntry sorted ;;
  Fprintf (tab ++ "tableMax = " ++ ename last ++ " + 1" ++ nl) ;;
  Fprintf (tab ++ "tableNone = tableMax" ++ nl) ;;
  Fprintf (")" ++ nl).

Definition writePrelude : Gen unit :=
  Fprintf (nl ++
    "// Copyright (c) Microsoft Corporation" ++ nl ++
    "// Licensed under the MIT License." ++ nl ++
    nl ++
    "// Code generated by " ++ dquote ++ "genlayout" ++ dquote ++
      "; DO NOT EDIT." ++ nl ++
    nl ++
    "package winmd" ++ nl ++
    nl ++
    "import (" ++ nl ++
    tab ++ dquote ++ "fmt" ++ dquote ++ nl ++
    tab ++ dquote ++ "github.com/microsoft/go-winmd/flags" ++ dquote ++ nl ++
    ")" ++ nl ++
    nl).

Definition writeTableImpl (tables : list tableInfo) : Gen unit :=
  Fprintf ("// Implement table interface" ++ nl) ;;
  Fprintf nl ;;
  forEach tables (fun t =>
    Fprintf ("func (" ++ name t ++ ") table() table { return "
             ++ tableName t ++ " }" ++ nl) ;;
    Fprintf nl).

(** The [switch c.columnType] of [writeTableWidth]: the value left in
    [width[i]].  The switch has no default, so for any other column type
    the slot keeps the empty string [make] put there. *)
Definition widthOf (c : fieldInfo) : string :=
  match fcolumnType c with
  | columnTypeCodedIndex => "la.codedSizes[coded" ++ coded c ++ "]"
  | columnTypeIndex | columnTypeSlice =>
      "la.simpleSizes[" ++ ftableName c ++ "]"
  | columnTypeString => "la.stringSize"
  | columnTypeGUID => "la.guidSize"
  | columnTypeBlob => "la.blobSize"
  | columnTypeUint => Itoa (size c)
  | columnTypeOther => ""
  end.

Definition writeTableWidth (tables : list tableInfo) : Gen unit :=
  Fprintf ("// Define table width" ++ nl) ;;
  Fprintf nl ;;
  Fprintf ("func (t table) width(la *layout) (uint8) {" ++ nl) ;;
  Fprintf (tab ++ "switch t {" ++ nl) ;;
  forEach tables (fun t =>
    Fprintf (tab ++ "case " ++ tableName t ++ ":" ++ nl) ;;
    let width := map widthOf (fields t) in
    Fprintf (tab ++ tab ++ "return " ++ Join width " + " ++ nl)) ;;
  Fprintf (tab ++ "default:" ++ nl) ;;
  Fprintf (tab ++ tab ++ "panic(fmt.Sprintf(" ++ dquote
           ++ "table %v not supported" ++ dquote ++ ", t))" ++ nl) ;;
  Fprintf (tab ++ "}" ++ nl) ;;
  Fprintf ("}" ++ nl) ;;
  Fprintf nl.

Definition writeCodedTable (tables : list tableInfo) : Gen unit :=
  Fprintf ("// Define CodedTable function" ++ nl) ;;
  Fprintf nl ;;
  Fprintf ("// CodedTable returns the table associated to c." ++ nl) ;;
  Fprintf ("func (t *Tables) CodedTable(c CodedIndex) *Table[Record] {"
           ++ nl) ;;
  Fprintf (tab ++ "switch c.table {" ++ nl) ;;
  forEach tables (fun t =>
    unlessContinue (exported t) (
      Fprintf (tab ++ "case " ++ tableName t ++ ":" ++ nl) ;;
      Fprintf (tab ++ tab ++ "return (*Table[Record])(&t." ++ name t ++ ")"
               ++ nl))) ;;
  Fprintf (tab ++ "default:" ++ nl) ;;
  Fprintf (tab ++ tab ++ "return nil" ++ nl) ;;
  Fprintf (tab ++ "}" ++ nl) ;;
  Fprintf ("}" ++ nl).

Definition writeTablesStruct (tables : list tableInfo) : Gen unit :=
  Fprintf ("// Define tables struct" ++ nl) ;;
  Fprintf nl ;;
  Fprintf ("type tables struct {" ++ nl) ;;
  forEach tables (fun t =>
    unlessContinue (exported t) (
      Fprintf (tab ++ name t ++ " Table[" ++ name t ++ "]" ++ nl))) ;;
  Fprintf ("}" ++ nl) ;;
  Fprintf nl ;;
  Fprintf ("func initTables(t *Tables) {" ++ nl) ;;
  forEach tables (fun t =>
    unlessContinue (exported t) (
      Fprintf (tab ++ "t." ++ name t ++ " = newTable[" ++ name t ++ "](t, "
               ++ tableName t ++ ")" ++ nl))) ;;
  Fprintf ("}" ++ nl).

(** The inner [switch f.size] of [writeTableEncoding]. *)
Definition uintFn (f : fieldInfo) : Gen string :=
  match size f with
  | 1 => ret "uint8"
  | 2 => ret "uint16"
  | 4 => ret "uint32"
  | _ => Fatalf ("unsupported uint size " ++ Itoa (size f))
  end.

(** One iteration of the field loop of [writeTableEncoding]: the
    [switch f.columnType], again without a default. *)
Definition writeField (t : tableInfo) (f : fieldInfo) : Gen unit :=
  match fcolumnType f with
  | columnTypeIndex =>
      Fprintf (tab ++ "rec." ++ fname f ++ " = r.index(" ++ ftableName f
               ++ ")" ++ nl)
  | columnTypeBlob => Fprintf (tab ++ "rec." ++ fname f ++ " = r.blob()" ++ nl)
  | columnTypeGUID => Fprintf (tab ++ "rec." ++ fname f ++ " = r.guid()" ++ nl)
  | columnTypeString =>
      Fprintf (tab ++ "rec." ++ fname f ++ " = r.string()" ++ nl)
  | columnTypeUint =>
      fn <- uintFn f ;;
      if HasPrefix (typeName f) "flags." then
        Fprintf (tab ++ "rec." ++ fname f ++ " = " ++ typeName f ++ "(r."
                 ++ fn ++ "())" ++ nl)
      else
        Fprintf (tab ++ "rec." ++ fname f ++ " = r." ++ fn ++ "()" ++ nl)
  | columnTypeCodedIndex =>
      Fprintf (tab ++ "rec." ++ fname f ++ " = r.coded(coded" ++ coded f
               ++ ")" ++ nl)
  | columnTypeSlice =>
      Fprintf (tab ++ "rec." ++ fname f ++ " = r.slice(" ++ tableName t
               ++ ", " ++ ftableName f ++ ")" ++ nl)
  | columnTypeOther => ret tt
  end.

Definition writeTableEncoding (tables : list tableInfo) : Gen unit :=
  Fprintf ("// Define table decoding functions" ++ nl) ;;
  Fprintf nl ;;
  forEach tables (fun t =>
    Fprintf ("func (rec *" ++ name t ++ ") decode(r recordReader) error {"
             ++ nl) ;;
    forEach (fields t) (writeField t) ;;
    Fprintf (tab ++ "return r.err" ++ nl) ;;
    Fprintf ("}" ++ nl) ;;
    Fprintf nl).

(** Whether a run reached its end. *)
Definition succeeded {A} (o : outcome A) : bool :=
  match o with
  | Done _ => true
  | _ => false
  end.

(** The writing half of [main], in its order, on an empty buffer. *)
Definition generate (tables : list tableInfo) : outcome (unit * string) :=
  (writePrelude ;;
   writeCodedTable tables ;;
   writeTableValues tables ;;
   writeTableWidth tables ;;
   writeTableImpl tables ;;
   writeTablesStruct tables ;;
   writeTableEncoding tables) "".


End Genlayout.

(* ================================================================== *)
(** ** What was printed, and what Go makes of it *)
(* ================================================================== *)

(** Modelled from the spec: the struct [layout] behind the parameter [la]
    of the printed [width] method belongs to the consuming library; its
    members are the ones the printed formulas name.  [codedSizes] is
    indexed by the scheme [X] of the constant [codedX], [simpleSizes] by a
    table constant.  Every member is a [uint8] (the printed method returns
    their sum as [uint8], and Go has no implicit conversion). *)
Record layout : Type := mkLayout {
  codedSizes : string -> Z;
  simpleSizes : string -> Z;
  stringSize : Z;
  guidSize : Z;
  blobSize : Z
}.

Definition uint8_layout (la : layout) : Prop :=
  (forall s, uint8_range (codedSizes la s)) /\
  (forall t, uint8_range (simpleSizes la t)) /\
  uint8_range (stringSize la) /\
  uint8_range (guidSize la) /\
  uint8_range (blobSize la).

(** What a call of a printed function does. *)
Inductive result (A : Type) : Type :=
| Returned (a : A)
| Panicked.
Arguments Returned {A} a.
Arguments Panicked {A}.

Module Catalog.
Import Genlayout.

(** The [const] block of [writeTableValues]: the entries in printed
    order, then [tableMax = maxBase + 1] and [tableNone = tableMax]. *)
Record catalog : Type := mkCatalog {
  entries : list entry;
  maxBase : string
}.

Definition entriesOf (tables : list tableInfo) : list entry :=
  sortSlice entryLess (map (fun t => mkEntry (tableName t) (code t)) tables).

Definition catalogOf (tables : list tableInfo) : option catalog :=
  match rev (entriesOf tables) with
  | [] => None
  | e :: _ => Some (mkCatalog (entriesOf tables) (ename e))
  end.

Definition renderEntry (e : entry) : string :=
  tab ++ ename e ++ " table = " ++ Itoa (evalue e) ++ nl.

Definition render (c : catalog) : string :=
  "// Define table enum" ++ nl ++ nl ++ "type table uint8" ++ nl ++ nl ++
  "const (" ++ nl ++
  cat (map renderEntry (entries c)) ++
  nl ++
  tab ++ "tableMax = " ++ maxBase c ++ " + 1" ++ nl ++
  tab ++ "tableNone = tableMax" ++ nl ++
  ")" ++ nl.

(** The value Go gives to a table constant: that of its declaration. *)
Fixpoint constValue (es : list entry) (n : string) : option Z :=
  match es with
  | [] => None
  | e :: rest => if String.eqb (ename e) n then Some (evalue e)
                 else constValue rest n
  end.

(** [tableMax] is a constant of type [table], a [uint8]: Go computes
    [maxBase + 1] exactly and rejects the declaration when the value
    does not fit the type. *)
Definition tableMax (c : catalog) : option Z :=
  match constValue (entries c) (maxBase c) with
  | Some v => if v + 1 <=? 255 then Some (v + 1) else None
  | None => None
  end.

Definition tableNone (c : catalog) : option Z := tableMax c.

End Catalog.

Module Width.

(** The shapes a printed width term can take. *)
Inductive widthTerm : Type :=
| TCoded (scheme : string)     (* la.codedSizes[codedX] *)
| TSimple (table : string)     (* la.simpleSizes[T] *)
| TString                      (* la.stringSize *)
| TGuid                        (* la.guidSize *)
| TBlob                        (* la.blobSize *)
| TConst (n : Z)               (* a decimal literal *)
| TEmpty.                      (* nothing printed *)

Definition termOf (c : fieldInfo) : widthTerm :=
  match fcolumnType c with
  | columnTypeCodedIndex => TCoded (coded c)
  | columnTypeIndex | columnTypeSlice => TSimple (ftableName c)
  | columnTypeString => TString
  | columnTypeGUID => TGuid
  | columnTypeBlob => TBlob
  | columnTypeUint => TConst (size c)
  | columnTypeOther => TEmpty
  end.

Definition formulaOf (t : tableInfo) : list widthTerm :=
  map termOf (fields t).

Definition renderTerm (w : widthTerm) : string :=
  match w with
  | TCoded s => "la.codedSizes[coded" ++ s ++ "]"
  | TSimple t => "la.simpleSizes[" ++ t ++ "]"
  | TString => "la.stringSize"
  | TGuid => "la.guidSize"
  | TBlob => "la.blobSize"
  | TConst n => Itoa n
  | TEmpty => ""
  end.

Definition renderFormula (f : list widthTerm) : string :=
  Join (map renderTerm f) " + ".

Definition renderCase (t : tableInfo) : string :=
  tab ++ "case " ++ tableName t ++ ":" ++ nl ++
  tab ++ tab ++ "return " ++ renderFormula (formulaOf t) ++ nl.

Definition render (tables : list tableInfo) : string :=
  "// Define table width" ++ nl ++ nl ++
  "func (t table) width(la *layout) (uint8) {" ++ nl ++
  tab ++ "switch t {" ++ nl ++
  cat (map renderCase tables) ++
  tab ++ "default:" ++ nl ++
  tab ++ tab ++ "panic(fmt.Sprintf(" ++ dquote ++ "table %v not supported"
    ++ dquote ++ ", t))" ++ nl ++
  tab ++ "}" ++ nl ++
  "}" ++ nl ++
  nl.

(** The number a term stands for. *)
Definition termValue (la : layout) (w : widthTerm) : Z :=
  match w with
  | TCoded s => codedSizes la s
  | TSimple t => simpleSizes la t
  | TString => stringSize la
  | TGuid => guidSize la
  | TBlob => blobSize la
  | TConst n => n
  | TEmpty => 0
  end.

(** The sum of the terms as plain integers. *)
Definition exactWidth (la : layout) (f : list widthTerm) : Z :=
  fold_left (fun acc w => acc + termValue la w) f 0.

(** Go's reading of [e1 + e2 + ... + en] returned as [uint8].  A literal
    is an untyped constant, a member of [la] a [uint8] value.  Constants
    are added exactly; a constant meeting a [uint8] operand, or returned,
    is converted to [uint8] and the program is rejected when it does not
    fit; two [uint8] operands are added modulo 256 at run time. *)
Inductive operand : Type :=
| Untyped (c : Z)
| Typed (v : Z).

Definition fits8 (c : Z) : bool := (0 <=? c) && (c <=? 255).

Definition operandOf (la : layout) (w : widthTerm) : option operand :=
  match w with
  | TConst n => Some (Untyped n)
  | TEmpty => None                       (* a missing operand *)
  | _ => Some (Typed (termValue la w))
  end.

Definition add (a b : operand) : option operand :=
  match a, b with
  | Untyped x, Untyped y => Some (Untyped (x + y))
  | Typed x, Untyped c => if fits8 c then Some (Typed (wrap8 (x + c))) else None
  | Untyped c, Typed y => if fits8 c then Some (Typed (wrap8 (c + y))) else None
  | Typed x, Typed y => Some (Typed (wrap8 (x + y)))
  end.

(** Left to right, as Go associates [+]. *)
Fixpoint addAll (la : layout) (acc : operand) (rest : list widthTerm)
  : option operand :=
  match rest with
  | [] => Some acc
  | w :: rest' =>
      match operandOf la w with
      | None => None
      | Some b => match add acc b with
                  | None => None
                  | Some acc' => addAll la acc' rest'
                  end
      end
  end.

Definition returned (o : operand) : option Z :=
  match o with
  | Untyped c => if fits8 c then Some c else None
  | Typed v => Some v
  end.

Definition printed (w : widthTerm) : bool :=
  match w with TEmpty => false | _ => true end.

(** The terms of a formula that were printed. *)
Definition printedTerms (f : list widthTerm) : list widthTerm :=
  filter printed f.

Definition endsEmpty (f : list widthTerm) : bool :=
  match rev f with
  | TEmpty :: _ => true
  | _ => false
  end.

Definition evalPrinted (la : layout) (f : list widthTerm) : option Z :=
  match f with
  | [] => None
  | w :: rest =>
      match operandOf la w with
      | None => None
      | Some a => match addAll la a rest with
                  | None => None
                  | Some o => returned o
                  end
      end
  end.

(** The value of one [return] of the [width] method; [None] when Go
    rejects it.  An empty term before another one leaves [+ +], which Go
    reads as a unary plus: the term drops out.  An empty last term leaves
    a dangling [+], and a formula with nothing printed a [return] without
    a value; both are rejected, as is a constant that overflows. *)
Definition evalFormula (la : layout) (f : list widthTerm) : option Z :=
  if endsEmpty f then None else evalPrinted la (printedTerms f).

(** When Go accepts a formula.  The constants in front of the first
    layout member are folded into one, which must fit [uint8]; behind it
    every constant is converted on its own. *)
Fixpoint constPrefix (f : list widthTerm) : Z * list widthTerm :=
  match f with
  | TConst n :: rest => let (c, r) := constPrefix rest in (n + c, r)
  | _ => (0, f)
  end.

Definition laterOK (w : widthTerm) : bool :=
  match w with
  | TConst n => fits8 n
  | TEmpty => false
  | _ => true
  end.

Definition acceptedPrinted (f : list widthTerm) : bool :=
  match f with
  | [] => false
  | _ => let (c, r) := constPrefix f in fits8 c && forallb laterOK r
  end.

Definition accepted (f : list widthTerm) : bool :=
  negb (endsEmpty f) && acceptedPrinted (printedTerms f).

End Width.

Module Decode.

(** The reads a printed decode step can call on the record reader. *)
Inductive readOp : Type :=
| RIndex (table : string)             (* r.index(T) *)
| RBlob                               (* r.blob() *)
| RGuid                               (* r.guid() *)
| RString                             (* r.string() *)
| RUint8                              (* r.uint8() *)
| RUint16                             (* r.uint16() *)
| RUint32                             (* r.uint32() *)
| RCoded (scheme : string)            (* r.coded(codedX) *)
| RSlice (owner target : string).     (* r.slice(Owner, T) *)

(** [rec.dest = r.op()], or [rec.dest = conv(r.op())]. *)
Record step : Type := mkStep {
  dest : string;
  conv : option string;
  op : readOp
}.

Definition flagsConv (f : fieldInfo) : option string :=
  if HasPrefix (typeName f) "flags." then Some (typeName f) else None.

(** The step one field contributes: none for a column type the switch
    does not list, none either where the generator stops. *)
Definition stepsOf (t : tableInfo) (f : fieldInfo) : list step :=
  match fcolumnType f with
  | columnTypeIndex => [mkStep (fname f) None (RIndex (ftableName f))]
  | columnTypeBlob => [mkStep (fname f) None RBlob]
  | columnTypeGUID => [mkStep (fname f) None RGuid]
  | columnTypeString => [mkStep (fname f) None RString]
  | columnTypeUint =>
      match size f with
      | 1 => [mkStep (fname f) (flagsConv f) RUint8]
      | 2 => [mkStep (fname f) (flagsConv f) RUint16]
      | 4 => [mkStep (fname f) (flagsConv f) RUint32]
      | _ => []
      end
  | columnTypeCodedIndex => [mkStep (fname f) None (RCoded (coded f))]
  | columnTypeSlice =>
      [mkStep (fname f) None (RSlice (tableName t) (ftableName f))]
  | columnTypeOther => []
  end.

Definition planOf (t : tableInfo) : list step :=
  flat_map (stepsOf t) (fields t).

(** The sizes [writeTableEncoding] accepts for an unsigned column. *)
Definition uintSizeOK (f : fieldInfo) : bool :=
  match fcolumnType f with
  | columnTypeUint => (size f =? 1) || (size f =? 2) || (size f =? 4)
  | _ => true
  end.

Definition renderCall (o : readOp) : string :=
  match o with
  | RIndex t => "index(" ++ t ++ ")"
  | RBlob => "blob()"
  | RGuid => "guid()"
  | RString => "string()"
  | RUint8 => "uint8()"
  | RUint16 => "uint16()"
  | RUint32 => "uint32()"
  | RCoded s => "coded(coded" ++ s ++ ")"
  | RSlice o t => "slice(" ++ o ++ ", " ++ t ++ ")"
  end.

Definition renderStep (s : step) : string :=
  match conv s with
  | Some ty =>
      tab ++ "rec." ++ dest s ++ " = " ++ ty ++ "(r." ++ renderCall (op s)
      ++ ")" ++ nl
  | None => tab ++ "rec." ++ dest s ++ " = r." ++ renderCall (op s) ++ nl
  end.

Definition renderDecode (t : tableInfo) : string :=
  "func (rec *" ++ name t ++ ") decode(r recordReader) error {" ++ nl ++
  cat (map renderStep (planOf t)) ++
  tab ++ "return r.err" ++ nl ++
  "}" ++ nl ++
  nl.

Definition render (tables : list tableInfo) : string :=
  "// Define table decoding functions" ++ nl ++ nl ++
  cat (map renderDecode tables).

End Decode.

Module Dispatch.

(** One [case] of the printed [CodedTable]: the table constant and the
    member of [Tables] returned for it. *)
Record dcase : Type := mkCase { caseConst : string; member : string }.

Definition casesOf (tables : list tableInfo) : list dcase :=
  map (fun t => mkCase (tableName t) (name t)) (filter exported tables).

Definition renderCase (c : dcase) : string :=
  tab ++ "case " ++ caseConst c ++ ":" ++ nl ++
  tab ++ tab ++ "return (*Table[Record])(&t." ++ member c ++ ")" ++ nl.

Definition render (cases : list dcase) : string :=
  "// Define CodedTable function" ++ nl ++ nl ++
  "// CodedTable returns the table associated to c." ++ nl ++
  "func (t *Tables) CodedTable(c CodedIndex) *Table[Record] {" ++ nl ++
  tab ++ "switch c.table {" ++ nl ++
  cat (map renderCase cases) ++
  tab ++ "default:" ++ nl ++
  tab ++ tab ++ "return nil" ++ nl ++
  tab ++ "}" ++ nl ++
  "}" ++ nl.

(** The printed [switch c.table]: the first case whose constant has the
    value of the tag returns its member, the default returns [nil].  The
    constants take their values from the catalog entries [consts].  Go
    rejects a switch with two equal case constants, so this is the meaning
    of the printed switch when the visible tables have distinct codes. *)
Fixpoint CodedTable (consts : list Genlayout.entry) (cases : list dcase)
         (tag : Z) : result (option string) :=
  match cases with
  | [] => Returned None
  | c :: rest =>
      match Catalog.constValue consts (caseConst c) with
      | Some v => if v =? tag then Returned (Some (member c))
                  else CodedTable consts rest tag
      | None => CodedTable consts rest tag
      end
  end.

End Dispatch.

Module Registry.

(** One statement of the printed [initTables]:
    [t.member = newTable[member](t, idConst)]. *)
Record accessor : Type := mkAccessor { member : string; idConst : string }.

Definition accessorsOf (tables : list tableInfo) : list accessor :=
  map (fun t => mkAccessor (name t) (tableName t)) (filter exported tables).

Definition renderMember (a : accessor) : string :=
  tab ++ member a ++ " Table[" ++ member a ++ "]" ++ nl.

Definition renderInit (a : accessor) : string :=
  tab ++ "t." ++ member a ++ " = newTable[" ++ member a ++ "](t, "
  ++ idConst a ++ ")" ++ nl.

Definition render (accs : list accessor) : string :=
  "// Define tables struct" ++ nl ++ nl ++
  "type tables struct {" ++ nl ++
  cat (map renderMember accs) ++
  "}" ++ nl ++ nl ++
  "func initTables(t *Tables) {" ++ nl ++
  cat (map renderInit accs) ++
  "}" ++ nl.

(** The ids the accessors are created with, in initialisation order. *)
Definition initIds (consts : list Genlayout.entry) (accs : list accessor)
  : list (option Z) :=
  map (fun a => Catalog.constValue consts (idConst a)) accs.

End Registry.

(* ================================================================== *)
(** ** The record cursor *)
(* ================================================================== *)

Module Reader.
Import Decode.

(** Modelled from the spec: a named code scheme, given from outside as
    its participating tables and its tag-bit width. *)
Record CodeScheme : Type := mkScheme {
  participating : list string;
  tagBits : Z
}.

(** Modelled from the spec: the two ways a record read fails. *)
Inductive CursorFault : Type :=
| Exhausted          (* the read runs past the available bytes *)
| MalformedTag.      (* the coded tag names no participating table *)

(** Modelled from the spec: the type [recordReader] of the consuming
    library is not in [main.go].  It is a sequential cursor over the
    bytes of one record: [rest] are the bytes not yet read, [pos] counts
    the bytes read so far, [err] is the latest error state, and the
    widths of heap, table and coded reads come from the layout [la]. *)
Record recordReader : Type := mkReader {
  rest : list Byte.byte;
  pos : Z;
  la : layout;
  schemes : string -> CodeScheme;
  err : option CursorFault
}.

Definition withErr (r : recordReader) (e : CursorFault) : recordReader :=
  mkReader (rest r) (pos r) (la r) (schemes r) (Some e).

(** Little-endian value of a run of bytes. *)
Fixpoint le (bs : list Byte.byte) : Z :=
  match bs with
  | [] => 0
  | b :: more => Z.of_N (Byte.to_N b) + 256 * le more
  end.

Definition available (n : Z) (r : recordReader) : bool :=
  (0 <=? n) && (n <=? Z.of_nat (List.length (rest r))).

Definition peek (n : Z) (r : recordReader) : Z :=
  le (firstn (Z.to_nat n) (rest r)).

Definition advance (n : Z) (r : recordReader) : recordReader :=
  mkReader (skipn (Z.to_nat n) (rest r)) (pos r + n) (la r) (schemes r)
           (err r).

(** Modelled from the spec: a read of [n] bytes advances the cursor by
    exactly [n]; a read that would run past the available bytes fails,
    leaves the cursor where it is and yields the zero value. *)
Definition take (n : Z) (r : recordReader) : Z * recordReader :=
  if available n r then (peek n r, advance n r)
  else (0, withErr r Exhausted).

(** Modelled from the spec: the width each read consumes.  Heap, table
    and coded reads take the width the layout resolves, a row-range read
    is a single index read into its target. *)
Definition opWidth (la : layout) (o : readOp) : Z :=
  match o with
  | RIndex t => simpleSizes la t
  | RBlob => blobSize la
  | RGuid => guidSize la
  | RString => stringSize la
  | RUint8 => 1
  | RUint16 => 2
  | RUint32 => 4
  | RCoded s => codedSizes la s
  | RSlice _ t => simpleSizes la t
  end.

Definition tagOf (cs : CodeScheme) (v : Z) : Z := v mod 2 ^ tagBits cs.

Definition tagOK (cs : CodeScheme) (v : Z) : bool :=
  tagOf cs v <? Z.of_nat (List.length (participating cs)).

(** Modelled from the spec: one primitive read.  A coded read fails also
    when the bytes were there but the tag is malformed. *)
Definition exec (o : readOp) (r : recordReader) : Z * recordReader :=
  match o with
  | RCoded s =>
      let n := opWidth (la r) o in
      if available n r then
        if tagOK (schemes r s) (peek n r) then (peek n r, advance n r)
        else (0, withErr (advance n r) MalformedTag)
      else (0, withErr r Exhausted)
  | _ => take (opWidth (la r) o) r
  end.

(** A record under construction: the value of each member, zero at
    first. *)
Definition record : Type := string -> Z.

Definition zeroRecord : record := fun _ => 0.

Definition setField (rec : record) (f : string) (v : Z) : record :=
  fun g => if String.eqb g f then v else rec g.

(** [rec.dest = r.op()]: the conversion to a flag type keeps the
    number. *)
Definition runStep (st : record * recordReader) (s : step)
  : record * recordReader :=
  let (v, r') := exec (op s) (snd st) in
  (setField (fst st) (dest s) v, r').

Definition runPlan (plan : list step) (st : record * recordReader)
  : record * recordReader :=
  fold_left runStep plan st.

(** The printed method [decode]: every step in turn on the caller's
    record, then [return r.err]. *)
Definition decode (plan : list step) (rec : record) (r : recordReader)
  : record * recordReader * option CursorFault :=
  let st := runPlan plan (rec, r) in
  (fst st, snd st, err (snd st)).

(** The bytes a plan consumes when every read finds its bytes. *)
Definition planWidth (la0 : layout) (plan : list step) : Z :=
  fold_right Z.add 0 (map (fun s => opWidth la0 (op s)) plan).

End Reader.

(* ================================================================== *)
(** ** The specification's vocabulary *)
(* ================================================================== *)

Module Spec.

Inductive Heap : Type := HString | HBlob | HGUID.

(** The field kinds of the data model. *)
Inductive FieldKind : Type :=
| FixedInt (sizeBytes : Z)
| HeapIndex (heap : Heap)
| TableRef (target : string)
| CodedRef (scheme : string)
| RowRange (target : string).

Record LayoutContext : Type := mkContext {
  heapIndexWidth : Heap -> Z;
  tableIndexWidth : string -> Z;
  codedIndexWidth : string -> Z
}.

(** The per-field width term of the Width Formula Builder, as the
    specification words it. *)
Definition fieldWidth (ctx : LayoutContext) (k : FieldKind) : Z :=
  match k with
  | FixedInt sizeBytes => sizeBytes
  | HeapIndex heap => heapIndexWidth ctx heap
  | TableRef target => tableIndexWidth ctx target
  | CodedRef scheme => codedIndexWidth ctx scheme
  | RowRange target => tableIndexWidth ctx target  (* as TableRef *)
  end.

(** How the column types of the generator name the kinds of the data
    model; a column type outside the seven constants names none. *)
Definition kindOf (f : fieldInfo) : option FieldKind :=
  match fcolumnType f with
  | columnTypeUint => Some (FixedInt (size f))
  | columnTypeString => Some (HeapIndex HString)
  | columnTypeBlob => Some (HeapIndex HBlob)
  | columnTypeGUID => Some (HeapIndex HGUID)
  | columnTypeIndex => Some (TableRef (ftableName f))
  | columnTypeCodedIndex => Some (CodedRef (coded f))
  | columnTypeSlice => Some (RowRange (ftableName f))
  | columnTypeOther => None
  end.

(** The layout of the consuming library seen as a [LayoutContext]. *)
Definition contextOf (la : layout) : LayoutContext :=
  mkContext
    (fun h => match h with
              | HString => stringSize la
              | HBlob => blobSize la
              | HGUID => guidSize la
              end)
    (simpleSizes la)
    (codedSizes la).

End Spec.

(* ================================================================== *)
(** ** The printed methods [width] and [table] *)
(* ================================================================== *)

Module Printed.

(** The cases of the printed [switch t] of the method [width], taken one
    after the other: the first case whose constant has the value of [t]
    returns the value of its formula, the default panics.  The constants
    take their values from the catalog entries [consts]. *)
Fixpoint widthSwitch (consts : list Genlayout.entry)
         (tables : list tableInfo) (la : layout) (t : Z)
  : result (option Z) :=
  match tables with
  | [] => Panicked
  | tb :: rest =>
      match Catalog.constValue consts (tableName tb) with
      | Some v => if v =? t
                  then Returned (Width.evalFormula la (Width.formulaOf tb))
                  else widthSwitch consts rest la t
      | None => widthSwitch consts rest la t
      end
  end.

(** The values of the case constants, if all of them are declared. *)
Fixpoint caseValues (consts : list Genlayout.entry)
         (tables : list tableInfo) : option (list Z) :=
  match tables with
  | [] => Some []
  | tb :: rest =>
      match Catalog.constValue consts (tableName tb),
            caseValues consts rest with
      | Some v, Some vs => Some (v :: vs)
      | _, _ => None
      end
  end.

Fixpoint distinctZ (l : list Z) : bool :=
  match l with
  | [] => true
  | x :: rest => negb (existsb (Z.eqb x) rest) && distinctZ rest
  end.

(** Whether Go accepts the printed method [width] at all: every case
    constant is declared, no two of them are equal, and every [return]
    is accepted. *)
Definition widthCompiles (consts : list Genlayout.entry)
           (tables : list tableInfo) : bool :=
  match caseValues consts tables with
  | Some vs => distinctZ vs
  | None => false
  end
  && forallb (fun tb => Width.accepted (Width.formulaOf tb)) tables.

(** The printed method [width]: [None] when Go rejects it, so that the
    method does not exist. *)
Definition width (consts : list Genlayout.entry) (tables : list tableInfo)
           (la : layout) (t : Z) : option (result (option Z)) :=
  if widthCompiles consts tables
  then Some (widthSwitch consts tables la t)
  else None.

(** A width term Go takes wherever it stands in a formula: it was
    printed, fits [uint8] if it is a constant, and is not negative. *)
Definition soundTerm (la : layout) (w : Width.widthTerm) : Prop :=
  Width.printed w = true /\ Width.laterOK w = true /\
  0 <= Width.termValue la w.

(** One method of [writeTableImpl]:
    [func (owner) table() table { return answer }]. *)
Record method : Type := mkMethod { owner : string; answer : string }.

Definition methodsOf (tables : list tableInfo) : list method :=
  map (fun t => mkMethod (name t) (tableName t)) tables.

Definition renderMethod (m : method) : string :=
  "func (" ++ owner m ++ ") table() table { return " ++ answer m ++ " }"
  ++ nl ++ nl.

Definition renderMethods (ms : list method) : string :=
  "// Implement table interface" ++ nl ++ nl ++ cat (map renderMethod ms).

(** The constant the method [table] of a struct returns: Go has one method
    of that name per receiver type. *)
Fixpoint tableMethod (ms : list method) (struct : string) : option string :=
  match ms with
  | [] => None
  | m :: rest => if String.eqb (owner m) struct then Some (answer m)
                 else tableMethod rest struct
  end.

End Printed.

(* ================================================================== *)
(** ** [main] and [formatSource] *)
(* ================================================================== *)

Module Main.

(** What a run leaves behind: the files written, newest first, and the
    lines given to [log.Printf]. *)
Record world : Type := mkWorld {
  files : list (string * string);
  logged : list string
}.

(** How the process ends. *)
Inductive ending : Type :=
| Finished                     (* main returns *)
| EndPanic (msg : string)      (* a run-time panic *)
| EndFatal (msg : string).     (* log.Fatalf *)

(** The content a path holds: that of the newest write to it. *)
Fixpoint readFile (fs : list (string * string)) (path : string)
  : option string :=
  match fs with
  | [] => None
  | (p, d) :: rest => if String.eqb p path then Some d else readFile rest path
  end.

Section Libraries.

(** [format.Source] of the Go library: the bytes and the error it
    returns. *)
Variable Source : string -> string * option string.

(** The error [os.WriteFile] meets on a path, if any. *)
Variable writeError : string -> option string.

(** [os.WriteFile(path, data, 0644)]; a write that fails is taken to
    leave the files as they were. *)
Definition WriteFile (path data : string) (w : world)
  : world * option string :=
  match writeError path with
  | Some e => (w, Some e)
  | None => (mkWorld ((path, data) :: files w) (logged w), None)
  end.

(** [log.Printf]. *)
Definition Printf (line : string) (w : world) : world :=
  mkWorld (files w) (logged w ++ [line]).

Definition formatSource (d : string) (w : world)
  : world * outcome string :=
  let (src, err) := Source d in
  match err with
  | Some e =>
      let w := Printf ("warning: internal error: invalid Go generated: " ++ e)
                      w in
      let w := Printf "warning: compile the package to analyze the error" w in
      let (w, err) := WriteFile "zlayout.go.reject" d w in
      match err with
      | Some e' => (w, Fatal ("writing rejected output: " ++ e'))
      | None => (w, Done src)
      end
  | None => (w, Done src)
  end.

(** [main] from the point where the tables are parsed: the parsing
    functions are not in [main.go]. *)
Definition main (tables : list tableInfo) (w : world) : world * ending :=
  match Genlayout.generate tables with
  | Done (_, buf) =>
      match formatSource buf w with
      | (w, Done src) =>
          let (w, err) := WriteFile "zlayout.go" src w in
          match err with
          | Some e => (w, EndFatal ("writing output: " ++ e))
          | None => (w, Finished)
          end
      | (w, Panic m) => (w, EndPanic m)
      | (w, Fatal m) => (w, EndFatal m)
      end
  | Panic m => (w, EndPanic m)
  | Fatal m => (w, EndFatal m)
  end.

End Libraries.

End Main.

(* ================================================================== *)
(** ** Sample schemas, layouts and readers *)
(* ================================================================== *)

Module Examples.
Import Reader.

Definition uintField (n : string) (bytes : Z) : fieldInfo :=
  mkField n "uint" columnTypeUint bytes "" "".

Definition stringField (n : string) : fieldInfo :=
  mkField n "String" columnTypeString 0 "" "".

(** One field of every kind. *)
Definition allKinds : tableInfo :=
  mkTable "TypeDef" "tableTypeDef" 2 true
    [ mkField "Flags" "flags.TypeAttributes" columnTypeUint 4 "" "";
      stringField "Name";
      mkField "Sig" "BlobIndex" columnTypeBlob 0 "" "";
      mkField "Mvid" "GUIDIndex" columnTypeGUID 0 "" "";
      mkField "Extends" "CodedIndex" columnTypeCodedIndex 0 "" "TypeDefOrRef";
      mkField "Parent" "Index" columnTypeIndex 0 "tableModule" "";
      mkField "FieldList" "Slice" columnTypeSlice 0 "tableField" "" ].

(** The single-table scenario: [T{code=3, visible}] with one two-byte
    integer. *)
Definition single : tableInfo :=
  mkTable "T" "tableT" 3 true [uintField "Value" 2].

(** A table whose code is the largest a [uint8] holds. *)
Definition topCode : tableInfo :=
  mkTable "Last" "tableLast" 255 true [uintField "Value" 2].

(** Two tables declared with the same code. *)
Definition dupA : tableInfo := mkTable "A" "tableA" 5 true [uintField "X" 2].
Definition dupB : tableInfo := mkTable "B" "tableB" 5 true [uintField "Y" 4].

(** Two visible tables declared in descending code order. *)
Definition second : tableInfo := mkTable "B" "tableB" 1 true [uintField "Y" 4].
Definition first : tableInfo := mkTable "A" "tableA" 0 true [uintField "X" 2].

(** A visible and an internal table. *)
Definition shown : tableInfo := mkTable "A" "tableA" 0 true [uintField "X" 2].
Definition hidden : tableInfo := mkTable "b" "tableB" 1 false [uintField "Y" 4].

(** A table with a column type outside the seven constants. *)
Definition odd : tableInfo :=
  mkTable "Odd" "tableOdd" 7 true
    [ mkField "Mystery" "float64" columnTypeOther 0 "" ""; uintField "Value" 2 ].


(** A table without fields. *)
Definition bare : tableInfo := mkTable "Bare" "tableBare" 6 true [].

(** A string index followed by 63 four-byte integers: 256 bytes when the
    string index takes four. *)
Definition wide : tableInfo :=
  mkTable "Wide" "tableWide" 8 true
    (stringField "Name" :: repeat (uintField "V" 4) 63).

(** 64 four-byte integers: 256 bytes under every layout. *)
Definition allFixed : tableInfo :=
  mkTable "Fixed" "tableFixed" 9 true (repeat (uintField "V" 4) 64).

(** Every index four bytes wide. *)
Definition la4 : layout := mkLayout (fun _ => 4) (fun _ => 4) 4 4 4.

(** Every scheme with three participating tables and two tag bits. *)
Definition threeWay : string -> CodeScheme :=
  fun _ => mkScheme ["tableTypeDef"; "tableTypeRef"; "tableTypeSpec"] 2.

(** A reader at the start of a record holding the given bytes. *)
Definition readerOn (bytes : list Byte.byte) : recordReader :=
  mkReader bytes 0 la4 threeWay None.

Definition zeros (n : nat) : list Byte.byte := repeat x00 n.

End Examples.

(** More sample schemas. *)
Module Cases.

(** A three-byte integer, a size [writeTableEncoding] does not take. *)
Definition odd3 : tableInfo :=
  mkTable "Odd3" "tableOdd3" 11 true
    [Examples.uintField "A" 2; Examples.uintField "B" 3;
     Examples.uintField "C" 5].

(** A formatter that changes nothing and one that rejects everything. *)
Definition keep : string -> string * option string := fun d => (d, None).
Definition reject : string -> string * option string :=
  fun d => ("", Some "syntax error").

Definition allWritable : string -> option string := fun _ => None.

Definition emptyWorld : Main.world := Main.mkWorld [] [].

End Cases.

(* ================================================================== *)
(** ** What the generator prints *)
(* ================================================================== *)

Section TextLemmas.

Lemma sapp_assoc (a b c : string) : ((a ++ b) ++ c = a ++ (b ++ c))%string.
Proof.
  induction a as [|ch a IH]; simpl; [reflexivity|].
  now rewrite IH.
Qed.

Lemma sapp_nil_r (a : string) : (a ++ "" = a)%string.
Proof.
  induction a as [|ch a IH]; simpl; [reflexivity|].
  now rewrite IH.
Qed.

Lemma cat_app (xs ys : list string) :
  cat (xs ++ ys) = (cat xs ++ cat ys)%string.
Proof.
  induction xs as [|x xs IH]; simpl; [reflexivity|].
  now rewrite IH, sapp_assoc.
Qed.

(** A chunk found inside a text is found behind any prefix. *)
Lemma inside_l (h m x : string) :
  (exists pre post, m = (pre ++ x ++ post)%string) ->
  exists pre post, (h ++ m)%string = (pre ++ x ++ post)%string.
Proof.
  intros (pre & post & ->). exists (h ++ pre)%string, post.
  now rewrite sapp_assoc.
Qed.

Lemma bind_Fprintf {B} (s : string) (k : unit -> Gen B) (w : string) :
  bind (Fprintf s) k w = k tt (w ++ s)%string.
Proof. reflexivity. Qed.

Lemma bind_Done {A B} (c : Gen A) (k : A -> Gen B) w a w' :
  c w = Done (a, w') -> bind c k w = k a w'.
Proof. intros H. unfold bind. now rewrite H. Qed.

(** A loop whose body prints [f x] for each [x] prints them all, in
    order. *)
Lemma forEach_prints {A} (xs : list A) (body : A -> Gen unit)
      (f : A -> string) :
  (forall x w, In x xs -> body x w = Done (tt, (w ++ f x)%string)) ->
  forall w, forEach xs body w = Done (tt, (w ++ cat (map f xs))%string).
Proof.
  induction xs as [|x xs IH]; intros Hb w; simpl.
  - unfold ret. now rewrite sapp_nil_r.
  - rewrite (bind_Done _ _ w tt (w ++ f x)%string) by (apply Hb; now left).
    rewrite IH by (intros; apply Hb; now right).
    now rewrite sapp_assoc.
Qed.

(** The same for a loop that skips some elements with [continue]. *)
Lemma forEach_filter_prints {A} (xs : list A) (keep : A -> bool)
      (body : A -> Gen unit) (f : A -> string) :
  (forall x w, body x w = Done (tt, (w ++ f x)%string)) ->
  forall w, forEach xs (fun x => unlessContinue (keep x) (body x)) w
            = Done (tt, (w ++ cat (map f (filter keep xs)))%string).
Proof.
  intros Hb. induction xs as [|x xs IH]; intros w; simpl.
  - unfold ret. now rewrite sapp_nil_r.
  - unfold bind, unlessContinue at 1. destruct (keep x); simpl.
    + rewrite Hb, IH. now rewrite sapp_assoc.
    + unfold ret. apply IH.
Qed.

Lemma bind_forEach {A B} (xs : list A) (body : A -> Gen unit)
      (f : A -> string) (k : unit -> Gen B) (w : string) :
  (forall x w, In x xs -> body x w = Done (tt, (w ++ f x)%string)) ->
  bind (forEach xs body) k w = k tt (w ++ cat (map f xs))%string.
Proof. intros Hb. apply bind_Done. now apply forEach_prints. Qed.

Lemma bind_forEach_filter {A B} (xs : list A) (keep : A -> bool)
      (body : A -> Gen unit) (f : A -> string) (k : unit -> Gen B)
      (w : string) :
  (forall x w, body x w = Done (tt, (w ++ f x)%string)) ->
  bind (forEach xs (fun x => unlessContinue (keep x) (body x))) k w
  = k tt (w ++ cat (map f (filter keep xs)))%string.
Proof. intros Hb. apply bind_Done. now apply forEach_filter_prints. Qed.

End TextLemmas.

(** Right-nest every concatenation, then compare. *)
Ltac norm_text :=
  unfold tab, nl, dquote;
  repeat (progress (cbn [append]; rewrite ?sapp_assoc));
  try reflexivity.

Section GeneratorPrints.
Import Genlayout.

Lemma widthOf_render (c : fieldInfo) :
  widthOf c = Width.renderTerm (Width.termOf c).
Proof. unfold widthOf, Width.termOf. now destruct (fcolumnType c). Qed.

Lemma writeTableWidth_prints (tables : list tableInfo) (w : string) :
  writeTableWidth tables w = Done (tt, (w ++ Width.render tables)%string).
Proof.
  unfold writeTableWidth. rewrite !bind_Fprintf.
  rewrite (bind_forEach tables _ Width.renderCase).
  - rewrite !bind_Fprintf. unfold Fprintf, Width.render. f_equal. f_equal.
    norm_text.
  - intros t w' _. rewrite bind_Fprintf. unfold Fprintf.
    unfold Width.renderCase, Width.renderFormula, Width.formulaOf.
    rewrite map_map.
    rewrite (map_ext _ _ widthOf_render). f_equal; f_equal; norm_text.
Qed.

Lemma writeCodedTable_prints (tables : list tableInfo) (w : string) :
  writeCodedTable tables w
  = Done (tt, (w ++ Dispatch.render (Dispatch.casesOf tables))%string).
Proof.
  unfold writeCodedTable. rewrite !bind_Fprintf.
  rewrite (bind_forEach_filter tables exported _
             (fun t => Dispatch.renderCase
                         (Dispatch.mkCase (tableName t) (name t)))).
  - rewrite !bind_Fprintf. unfold Fprintf, Dispatch.render, Dispatch.casesOf.
    rewrite map_map. f_equal; f_equal; norm_text.
  - intros t w'. rewrite bind_Fprintf. unfold Fprintf, Dispatch.renderCase.
    simpl. f_equal; f_equal; norm_text.
Qed.

Lemma writeTablesStruct_prints (tables : list tableInfo) (w : string) :
  writeTablesStruct tables w
  = Done (tt, (w ++ Registry.render (Registry.accessorsOf tables))%string).
Proof.
  unfold writeTablesStruct. rewrite !bind_Fprintf.
  rewrite (bind_forEach_filter tables exported _
             (fun t => Registry.renderMember
                         (Registry.mkAccessor (name t) (tableName t)))).
  - rewrite !bind_Fprintf.
    rewrite (bind_forEach_filter tables exported _
               (fun t => Registry.renderInit
                           (Registry.mkAccessor (name t) (tableName t)))).
    + unfold Fprintf, Registry.render, Registry.accessorsOf.
      rewrite !map_map. f_equal; f_equal; norm_text.
    + intros t w'. unfold Fprintf, Registry.renderInit. simpl.
      f_equal; f_equal; norm_text.
  - intros t w'. unfold Fprintf, Registry.renderMember. simpl.
    f_equal.
Qed.

Lemma cat_flat_map {A B} (g : B -> string) (h : A -> list B) (xs : list A) :
  cat (map g (flat_map h xs)) = cat (map (fun x => cat (map g (h x))) xs).
Proof.
  induction xs as [|x xs IH]; simpl; [reflexivity|].
  now rewrite map_app, cat_app, IH.
Qed.

Lemma uintSizeOK_size (f : fieldInfo) :
  fcolumnType f = columnTypeUint -> Decode.uintSizeOK f = true ->
  size f = 1 \/ size f = 2 \/ size f = 4.
Proof.
  unfold Decode.uintSizeOK. intros ->. lia.
Qed.

Lemma writeField_prints (t : tableInfo) (f : fieldInfo) (w : string) :
  Decode.uintSizeOK f = true ->
  writeField t f w
  = Done (tt, (w ++ cat (map Decode.renderStep (Decode.stepsOf t f)))%string).
Proof.
  intros Hok. unfold writeField, Decode.stepsOf.
  destruct (fcolumnType f) eqn:Hc;
    try (unfold Fprintf, Decode.renderStep; simpl; f_equal; f_equal;
         norm_text; fail).
  - destruct (uintSizeOK_size f Hc Hok) as [Hs|[Hs|Hs]]; rewrite Hs;
      unfold uintFn; rewrite Hs; unfold bind, ret, Decode.flagsConv;
      destruct (HasPrefix (typeName f) "flags.");
      unfold Fprintf, Decode.renderStep; simpl; f_equal; f_equal; norm_text.
  - unfold ret. simpl. now rewrite sapp_nil_r.
Qed.

(** A column of an unsupported unsigned size stops the generator. *)
Lemma writeField_fatal (t : tableInfo) (f : fieldInfo) (w : string) :
  Decode.uintSizeOK f = false ->
  writeField t f w = Fatal ("unsupported uint size " ++ Itoa (size f)).
Proof.
  unfold Decode.uintSizeOK, writeField, uintFn.
  destruct (fcolumnType f); try discriminate.
  intros H. unfold bind.
  destruct (size f) as [|p|p]; try reflexivity.
  destruct p as [p|[p|[p|p|]|]|]; try reflexivity; simpl in H; discriminate.
Qed.

Lemma writeTableEncoding_prints (tables : list tableInfo) (w : string) :
  (forall t f, In t tables -> In f (fields t) -> Decode.uintSizeOK f = true) ->
  writeTableEncoding tables w = Done (tt, (w ++ Decode.render tables)%string).
Proof.
  intros Hok. unfold writeTableEncoding. rewrite !bind_Fprintf.
  rewrite (forEach_prints tables _ Decode.renderDecode).
  - unfold Decode.render. f_equal; f_equal; norm_text.
  - intros t w' Ht. rewrite bind_Fprintf.
    rewrite (bind_forEach (fields t) _
               (fun f => cat (map Decode.renderStep (Decode.stepsOf t f)))).
    + rewrite !bind_Fprintf. unfold Fprintf, Decode.renderDecode, Decode.planOf.
      rewrite cat_flat_map. f_equal; f_equal; norm_text.
    + intros f w'' Hf. apply writeField_prints. now apply (Hok t).
Qed.

Lemma writeTableValues_prints (tables : list tableInfo) (w : string)
      (c : Catalog.catalog) :
  Catalog.catalogOf tables = Some c ->
  writeTableValues tables w = Done (tt, (w ++ Catalog.render c)%string).
Proof.
  unfold Catalog.catalogOf, writeTableValues. fold (Catalog.entriesOf tables).
  intros Hc. rewrite !bind_Fprintf.
  rewrite (bind_forEach _ _ Catalog.renderEntry) by reflexivity.
  rewrite bind_Fprintf. unfold lastEntry.
  destruct (rev (Catalog.entriesOf tables)) as [|e es]; [discriminate|].
  injection Hc as <-. unfold bind at 1, ret. rewrite !bind_Fprintf.
  unfold Fprintf, Catalog.render. simpl Catalog.entries. simpl Catalog.maxBase.
  f_equal; f_equal; norm_text.
Qed.

Lemma writeTableValues_panics (tables : list tableInfo) (w : string) :
  Catalog.catalogOf tables = None ->
  writeTableValues tables w = Panic "runtime error: index out of range [-1]".
Proof.
  unfold Catalog.catalogOf, writeTableValues. fold (Catalog.entriesOf tables).
  intros Hc. rewrite !bind_Fprintf.
  rewrite (bind_forEach _ _ Catalog.renderEntry) by reflexivity.
  rewrite bind_Fprintf. unfold lastEntry.
  destruct (rev (Catalog.entriesOf tables)) as [|e es]; [|discriminate].
  reflexivity.
Qed.

Lemma printConstants_prints (es : list entry) (e : entry)
      (rest : list entry) (w : string) :
  rev es = e :: rest ->
  printConstants es w
  = Done (tt, (w ++ Catalog.render (Catalog.mkCatalog es (ename e)))%string).
Proof.
  unfold printConstants. intros Hr. rewrite !bind_Fprintf.
  rewrite (bind_forEach _ _ Catalog.renderEntry) by reflexivity.
  rewrite bind_Fprintf. unfold lastEntry. rewrite Hr.
  unfold bind at 1, ret. rewrite !bind_Fprintf.
  unfold Fprintf, Catalog.render. simpl Catalog.entries. simpl Catalog.maxBase.
  f_equal; f_equal; norm_text.
Qed.

End GeneratorPrints.

(* ================================================================== *)
(** ** Sorting by a key *)
(* ================================================================== *)

Section SortByKey.
Context {A : Type} (key : A -> Z).


Lemma insertLess_perm (x : A) (l : list A) :
  Permutation (insertLess (keyLess key) x l) (x :: l).
Proof.
  induction l as [|y l IH]; simpl; [apply Permutation_refl|].
  destruct (keyLess key x y); [apply Permutation_refl|].
  eapply perm_trans; [apply perm_skip, IH | apply perm_swap].
Qed.

Lemma sortSlice_acc_perm (xs acc : list A) :
  Permutation (fold_left (fun a x => insertLess (keyLess key) x a) xs acc) (xs ++ acc).
Proof.
  revert acc. induction xs as [|x xs IH]; intros acc; simpl.
  - apply Permutation_refl.
  - eapply perm_trans; [apply IH|].
    eapply perm_trans; [apply Permutation_app_head, insertLess_perm|].
    apply Permutation_sym, Permutation_middle.
Qed.

Lemma sortSlice_perm (xs : list A) : Permutation (sortSlice (keyLess key) xs) xs.
Proof.
  unfold sortSlice. eapply perm_trans; [apply sortSlice_acc_perm|].
  now rewrite app_nil_r.
Qed.

Lemma insertLess_sorted (x : A) (l : list A) :
  StronglySorted (keyLe key) l -> StronglySorted (keyLe key) (insertLess (keyLess key) x l).
Proof.
  induction l as [|y l IH]; intros Hs; simpl.
  - constructor; constructor.
  - apply StronglySorted_inv in Hs as [Hl Hy].
    unfold keyLess at 1. destruct (Z.ltb_spec (key x) (key y)) as [Hlt|Hge].
    + constructor; [constructor; assumption|].
      constructor; [unfold keyLe; lia|].
      eapply Forall_impl; [|exact Hy]. unfold keyLe. intros; lia.
    + constructor; [now apply IH|].
      eapply Permutation_Forall; [apply Permutation_sym, insertLess_perm|].
      constructor; [exact Hge | exact Hy].
Qed.

Lemma sortSlice_sorted (xs : list A) : StronglySorted (keyLe key) (sortSlice (keyLess key) xs).
Proof.
  unfold sortSlice.
  assert (H : forall acc, StronglySorted (keyLe key) acc ->
            StronglySorted (keyLe key)
              (fold_left (fun a x => insertLess (keyLess key) x a) xs acc)).
  { induction xs as [|x xs IH]; intros acc Hacc; simpl; [assumption|].
    apply IH. now apply insertLess_sorted. }
  apply H. constructor.
Qed.

(** Without equal keys the order is strict. *)
Lemma sorted_strict (l : list A) :
  NoDup (map key l) -> StronglySorted (keyLe key) l ->
  StronglySorted (fun a b => key a < key b) l.
Proof.
  induction l as [|x l IH]; intros Hnd Hs; [constructor|].
  simpl in Hnd. apply NoDup_cons_iff in Hnd as [Hx Hnd].
  apply StronglySorted_inv in Hs as [Hl Hall].
  constructor; [now apply IH|].
  rewrite Forall_forall in *. intros y Hy.
  specialize (Hall y Hy). unfold keyLe in Hall.
  assert (key y <> key x) by (intros E; apply Hx; rewrite <- E; now apply in_map).
  lia.
Qed.

(** The last element of a sorted list carries the largest key. *)
Lemma sorted_last_max (l : list A) (e : A) (es : list A) :
  StronglySorted (keyLe key) l -> rev l = e :: es ->
  forall x, In x l -> key x <= key e.
Proof.
  intros Hs Hrev x Hx.
  assert (Hl : l = (rev es ++ [e])%list).
  { rewrite <- (rev_involutive l), Hrev. reflexivity. }
  subst l. clear Hrev.
  induction (rev es) as [|y ys IH]; simpl in *.
  - destruct Hx as [<-|[]]. lia.
  - apply StronglySorted_inv in Hs as [Hs Hall].
    destruct Hx as [<-|Hx]; [|now apply IH].
    rewrite Forall_forall in Hall. apply Hall, in_or_app. right. now left.
Qed.

(** Two strictly sorted arrangements of the same elements coincide: with
    distinct keys any sorting procedure returns what [sortSlice] does. *)
Lemma strict_sorted_unique (l1 l2 : list A) :
  StronglySorted (fun a b => key a < key b) l1 ->
  StronglySorted (fun a b => key a < key b) l2 ->
  Permutation l1 l2 -> l1 = l2.
Proof.
  revert l2. induction l1 as [|x l1 IH]; intros l2 H1 H2 Hp.
  - now apply Permutation_nil in Hp.
  - destruct l2 as [|y l2];
      [apply Permutation_sym, Permutation_nil in Hp; discriminate|].
    apply StronglySorted_inv in H1 as [H1 Hx].
    apply StronglySorted_inv in H2 as [H2 Hy].
    rewrite Forall_forall in Hx, Hy.
    assert (Hxy : x = y).
    { assert (Ix : In x (y :: l2))
        by (eapply Permutation_in; [exact Hp | now left]).
      assert (Iy : In y (x :: l1))
        by (eapply Permutation_in; [apply Permutation_sym; exact Hp | now left]).
      destruct Ix as [E|Ix]; [now symmetry|].
      destruct Iy as [E|Iy]; [assumption|].
      specialize (Hx y Iy). specialize (Hy x Ix). lia. }
    subst y. f_equal. apply IH; try assumption.
    now apply Permutation_cons_inv in Hp.
Qed.

End SortByKey.

(* ================================================================== *)
(** ** The catalog *)
(* ================================================================== *)

Section CatalogFacts.
Import Genlayout Catalog.

Lemma entriesOf_perm (tables : list tableInfo) :
  Permutation (entriesOf tables)
              (map (fun t => mkEntry (tableName t) (code t)) tables).
Proof. unfold entriesOf. apply (sortSlice_perm evalue). Qed.

Lemma entriesOf_sorted (tables : list tableInfo) :
  StronglySorted (keyLe evalue) (entriesOf tables).
Proof. unfold entriesOf. apply (sortSlice_sorted evalue). Qed.

Lemma entriesOf_names (tables : list tableInfo) :
  Permutation (map ename (entriesOf tables)) (map tableName tables).
Proof.
  eapply perm_trans; [apply Permutation_map, entriesOf_perm|].
  rewrite map_map. apply Permutation_refl.
Qed.

Lemma entriesOf_values (tables : list tableInfo) :
  Permutation (map evalue (entriesOf tables)) (map code tables).
Proof.
  eapply perm_trans; [apply Permutation_map, entriesOf_perm|].
  rewrite map_map. apply Permutation_refl.
Qed.

Lemma catalogOf_nil : catalogOf [] = None.
Proof. reflexivity. Qed.

Lemma catalogOf_cons (t : tableInfo) (tables : list tableInfo) :
  exists e es, rev (entriesOf (t :: tables)) = e :: es /\
               catalogOf (t :: tables)
               = Some (mkCatalog (entriesOf (t :: tables)) (ename e)).
Proof.
  unfold catalogOf.
  destruct (rev (entriesOf (t :: tables))) as [|e es] eqn:Hr.
  - exfalso.
    assert (Hl : List.length (rev (entriesOf (t :: tables))) = 0%nat)
      by now rewrite Hr.
    rewrite length_rev, (Permutation_length (entriesOf_perm _)) in Hl.
    discriminate.
  - now exists e, es.
Qed.

Lemma constValue_In (es : list entry) (e : entry) :
  NoDup (map ename es) -> In e es ->
  constValue es (ename e) = Some (evalue e).
Proof.
  induction es as [|x es IH]; intros Hnd Hin; [contradiction|].
  simpl in Hnd. apply NoDup_cons_iff in Hnd as [Hx Hnd]. simpl.
  destruct Hin as [->|Hin].
  - now rewrite String.eqb_refl.
  - destruct (String.eqb_spec (ename x) (ename e)) as [E|_].
    + exfalso. apply Hx. rewrite E. now apply in_map.
    + now apply IH.
Qed.

(** The constant of a table has the table's code. *)
Lemma constValue_table (tables : list tableInfo) (t : tableInfo) :
  NoDup (map tableName tables) -> In t tables ->
  constValue (entriesOf tables) (tableName t) = Some (code t).
Proof.
  intros Hnd Hin.
  apply (constValue_In (entriesOf tables) (mkEntry (tableName t) (code t))).
  - eapply Permutation_NoDup; [apply Permutation_sym, entriesOf_names|exact Hnd].
  - eapply Permutation_in; [apply Permutation_sym, entriesOf_perm|].
    apply in_map_iff. now exists t.
Qed.

End CatalogFacts.

(** C9: for a schema with zero tables [writeTableValues] indexes the last
    element of the empty sorted list and panics with an index out of range,
    whatever was printed before; it neither returns a catalog nor reports a
    fault of its own, and the whole run of the generator ends in that panic.
    For any schema with at least one table it does not panic. *)
Theorem C9_empty_schema_panics :
  forall (tables : list tableInfo) (w : string),
    (Genlayout.writeTableValues tables w
     = Panic "runtime error: index out of range [-1]" <-> tables = []) /\
    Catalog.catalogOf [] = None /\
    Genlayout.generate []
    = Panic "runtime error: index out of range [-1]".
Proof.
  intros tables w. split; [|split; reflexivity].
  split.
  - destruct tables as [|t tables]; [reflexivity|]. intros H.
    destruct (catalogOf_cons t tables) as (e & es & _ & Hc).
    rewrite (writeTableValues_prints _ _ _ Hc) in H. discriminate.
  - intros ->. now apply writeTableValues_panics.
Qed.

(** C3 (amended): for every schema with at least one table, unique table
    names, unique codes and every code in [0,254], [writeTableValues]
    prints the (name, code) pairs in strictly ascending code order, every
    table once; [tableMax] is the largest code plus one, [tableNone] equals
    [tableMax], and no table has the value of [tableNone] as its code.
    The printed order is the only strictly ascending arrangement of the
    pairs, so it does not depend on how [sort.Slice] sorts. *)
Theorem C3_catalog_sorted_count_sentinel :
  forall (tables : list tableInfo) (w : string),
    tables <> [] ->
    NoDup (map tableName tables) ->
    NoDup (map code tables) ->
    (forall t, In t tables -> 0 <= code t < 255) ->
    exists c m,
      Catalog.catalogOf tables = Some c /\
      Genlayout.writeTableValues tables w
      = Done (tt, (w ++ Catalog.render c)%string) /\
      Permutation (Catalog.entries c)
        (map (fun t => Genlayout.mkEntry (tableName t) (code t)) tables) /\
      StronglySorted (fun a b => Genlayout.evalue a < Genlayout.evalue b)
                     (Catalog.entries c) /\
      In m (map code tables) /\
      (forall t, In t tables -> code t <= m) /\
      Catalog.tableMax c = Some (m + 1) /\
      Catalog.tableNone c = Catalog.tableMax c /\
      (forall t, In t tables -> Catalog.tableNone c <> Some (code t)) /\
      (forall l,
          Permutation l
            (map (fun t => Genlayout.mkEntry (tableName t) (code t)) tables) ->
          StronglySorted (fun a b => Genlayout.evalue a < Genlayout.evalue b)
                         l ->
          l = Catalog.entries c).
Proof.
  intros tables w Hne Hnames Hcodes Hrange.
  destruct tables as [|t0 tables]; [contradiction|]. clear Hne.
  set (ts := t0 :: tables) in *.
  destruct (catalogOf_cons t0 tables) as (e & es & Hrev & Hc). fold ts in Hrev, Hc.
  assert (He : In e (Catalog.entriesOf ts)).
  { apply in_rev. rewrite Hrev. now left. }
  assert (Hm : In (Genlayout.evalue e) (map code ts)).
  { eapply Permutation_in; [apply entriesOf_values|]. now apply in_map. }
  assert (Hmax : forall t, In t ts -> code t <= Genlayout.evalue e).
  { intros t Ht.
    apply (sorted_last_max Genlayout.evalue (Catalog.entriesOf ts) e es
             (entriesOf_sorted ts) Hrev
             (Genlayout.mkEntry (tableName t) (code t))).
    eapply Permutation_in; [apply Permutation_sym, entriesOf_perm|].
    apply in_map_iff. now exists t. }
  assert (Htm : Catalog.tableMax
                  (Catalog.mkCatalog (Catalog.entriesOf ts) (Genlayout.ename e))
                = Some (Genlayout.evalue e + 1)).
  { unfold Catalog.tableMax. simpl.
    rewrite constValue_In; [|
      eapply Permutation_NoDup; [apply Permutation_sym, entriesOf_names|exact Hnames]
      | exact He].
    apply in_map_iff in Hm as (t & Et & Ht). specialize (Hrange t Ht).
    destruct (Z.leb_spec (Genlayout.evalue e + 1) 255); [reflexivity|lia]. }
  exists (Catalog.mkCatalog (Catalog.entriesOf ts) (Genlayout.ename e)),
         (Genlayout.evalue e).
  repeat split; try assumption.
  - now apply writeTableValues_prints.
  - apply entriesOf_perm.
  - apply sorted_strict; [|apply entriesOf_sorted].
    eapply Permutation_NoDup; [apply Permutation_sym, entriesOf_values|exact Hcodes].
  - intros t Ht. unfold Catalog.tableNone. rewrite Htm.
    specialize (Hmax t Ht). intros E. injection E as E. lia.
  - intros l Hl Hsl. simpl.
    apply (strict_sorted_unique Genlayout.evalue); [exact Hsl| |].
    + apply sorted_strict; [|apply entriesOf_sorted].
      eapply Permutation_NoDup;
        [apply Permutation_sym, entriesOf_values|exact Hcodes].
    + eapply perm_trans; [exact Hl|apply Permutation_sym, entriesOf_perm].
Qed.

(** The single-table scenario: id 3, [tableMax] 4, [tableNone] 4. *)
Lemma C3_catalog_witness :
  exists c,
    Catalog.catalogOf [Examples.single] = Some c /\
    Catalog.tableMax c = Some 4 /\ Catalog.tableNone c = Some 4.
Proof.
  destruct (C3_catalog_sorted_count_sentinel [Examples.single] "")
    as (c & m & Hc & _ & _ & _ & Hm & _ & Hmax & Hnone & _ & _).
  - discriminate.
  - repeat constructor; simpl; intuition.
  - repeat constructor; simpl; intuition.
  - intros t [<-|[]]; simpl; lia.
  - exists c. simpl in Hm. destruct Hm as [<-|[]].
    split; [exact Hc|]. split; [exact Hmax|]. rewrite Hnone. exact Hmax.
Defined.

(** The claim as stated fails on two schemas whose codes are unique and
    within [0,255]: the empty schema, on which [writeTableValues] panics
    and no catalog exists, and a schema holding code 255, for which
    [tableMax = tableLast + 1] does not fit the type [table] and has no
    value. *)
Lemma C3_counterexample :
  (NoDup (map code []) /\
   Catalog.catalogOf [] = None /\
   Genlayout.writeTableValues [] ""
   = Panic "runtime error: index out of range [-1]") /\
  (NoDup (map code [Examples.topCode]) /\
   uint8_range (code Examples.topCode) /\
   Catalog.catalogOf [Examples.topCode]
   = Some (Catalog.mkCatalog [Genlayout.mkEntry "tableLast" 255] "tableLast") /\
   Catalog.tableMax
     (Catalog.mkCatalog [Genlayout.mkEntry "tableLast" 255] "tableLast")
   = None).
Proof.
  split; [split; [constructor|split; reflexivity]|].
  split; [repeat constructor; simpl; intuition|].
  split; [unfold uint8_range; simpl; lia|].
  split; reflexivity.
Qed.

(* ================================================================== *)
(** ** The whole run *)
(* ================================================================== *)

Lemma writeTableImpl_prints (tables : list tableInfo) (w : string) :
  Genlayout.writeTableImpl tables w
  = Done (tt, (w ++ "// Implement table interface" ++ nl ++ nl ++
               cat (map (fun t => "func (" ++ name t
                                  ++ ") table() table { return "
                                  ++ tableName t ++ " }" ++ nl ++ nl)
                        tables))%string).
Proof.
  unfold Genlayout.writeTableImpl. rewrite !bind_Fprintf.
  rewrite (forEach_prints tables _
             (fun t => ("func (" ++ name t ++ ") table() table { return "
                        ++ tableName t ++ " }" ++ nl ++ nl)%string)).
  - f_equal; f_equal; norm_text.
  - intros t w' _. rewrite bind_Fprintf. unfold Fprintf.
    f_equal; f_equal; norm_text.
Qed.

(** The generator runs to its end on every schema that has a table and
    only supported unsigned sizes. *)
Lemma generate_done (tables : list tableInfo) :
  tables <> [] ->
  (forall t f, In t tables -> In f (fields t) -> Decode.uintSizeOK f = true) ->
  exists text, Genlayout.generate tables = Done (tt, text).
Proof.
  intros Hne Hok. destruct tables as [|t0 tables]; [contradiction|].
  destruct (catalogOf_cons t0 tables) as (e & es & _ & Hc).
  unfold Genlayout.generate, Genlayout.writePrelude.
  rewrite bind_Fprintf.
  erewrite bind_Done by apply writeCodedTable_prints.
  erewrite bind_Done by (apply writeTableValues_prints; exact Hc).
  erewrite bind_Done by apply writeTableWidth_prints.
  erewrite bind_Done by apply writeTableImpl_prints.
  erewrite bind_Done by apply writeTablesStruct_prints.
  rewrite writeTableEncoding_prints by exact Hok.
  eexists. reflexivity.
Qed.

(** A permutation of a non-empty list has a last element. *)
Lemma perm_last {A} (l l' : list A) :
  l <> [] -> Permutation l' l -> exists e rest, rev l' = e :: rest.
Proof.
  intros Hne Hp. destruct (rev l') as [|e rest] eqn:Hr; [|now eauto].
  exfalso. apply Hne.
  assert (E : l' = []).
  { rewrite <- (rev_involutive l'), Hr. reflexivity. }
  subst l'. now apply Permutation_nil in Hp.
Qed.





(* ================================================================== *)
(** ** Coded dispatch and registry *)
(* ================================================================== *)

(** The printed switch finds the first visible table carrying the tag. *)
Lemma CodedTable_find (tables sub : list tableInfo) (tag : Z) :
  NoDup (map tableName tables) -> incl sub tables ->
  Dispatch.CodedTable (Catalog.entriesOf tables) (Dispatch.casesOf sub) tag
  = Returned
      (option_map name
         (find (fun t => exported t && (code t =? tag)) sub)).
Proof.
  intros Hnd. induction sub as [|t sub IH]; intros Hincl; [reflexivity|].
  assert (Ht : In t tables) by (apply Hincl; now left).
  assert (Hsub : incl sub tables) by (intros x Hx; apply Hincl; now right).
  unfold Dispatch.casesOf in *. simpl.
  destruct (exported t); simpl; [|now apply IH].
  rewrite (constValue_table tables t Hnd Ht).
  destruct (code t =? tag); [reflexivity|now apply IH].
Qed.

(** C5: [writeCodedTable] prints one case per visible table and none for
    an internal one; the printed lookup returns a table only if that table
    is visible and carries the tag, returns nil for every tag that no
    visible table carries, and never panics. *)
Theorem C5_coded_dispatch_visible_only :
  forall (tables : list tableInfo) (w : string) (tag : Z),
    NoDup (map tableName tables) ->
    Genlayout.writeCodedTable tables w
    = Done (tt, (w ++ Dispatch.render (Dispatch.casesOf tables))%string) /\
    map Dispatch.member (Dispatch.casesOf tables)
    = map name (filter exported tables) /\
    (forall m,
        Dispatch.CodedTable (Catalog.entriesOf tables)
                            (Dispatch.casesOf tables) tag
        = Returned (Some m) ->
        exists t, In t tables /\ exported t = true /\ code t = tag /\
                  name t = m) /\
    ((forall t, In t tables -> exported t = true -> code t <> tag) ->
     Dispatch.CodedTable (Catalog.entriesOf tables)
                         (Dispatch.casesOf tables) tag
     = Returned None) /\
    Dispatch.CodedTable (Catalog.entriesOf tables)
                        (Dispatch.casesOf tables) tag
    <> Panicked.
Proof.
  intros tables w tag Hnd.
  pose proof (CodedTable_find tables tables tag Hnd (incl_refl _)) as Hf.
  split; [apply writeCodedTable_prints|].
  split; [unfold Dispatch.casesOf; now rewrite map_map|].
  split; [|split].
  - intros m Hm. rewrite Hf in Hm.
    destruct (find _ tables) as [t|] eqn:Hfind; [|discriminate].
    apply find_some in Hfind as [Hin Hb].
    apply andb_true_iff in Hb as [He Hc]. apply Z.eqb_eq in Hc.
    exists t. simpl in Hm. injection Hm as Hm. now repeat split.
  - intros Hnone. rewrite Hf.
    destruct (find _ tables) as [t|] eqn:Hfind; [|reflexivity].
    apply find_some in Hfind as [Hin Hb].
    apply andb_true_iff in Hb as [He Hc]. apply Z.eqb_eq in Hc.
    now destruct (Hnone t Hin He).
  - rewrite Hf. discriminate.
Qed.

(** A visible table with code 0 and an internal one with code 1: the tag
    of the internal table yields nil. *)
Lemma C5_coded_dispatch_witness :
  Dispatch.casesOf [Examples.shown; Examples.hidden]
  = [Dispatch.mkCase "tableA" "A"] /\
  Dispatch.CodedTable (Catalog.entriesOf [Examples.shown; Examples.hidden])
                      (Dispatch.casesOf [Examples.shown; Examples.hidden]) 1
  = Returned None.
Proof.
  split; [reflexivity|].
  apply (C5_coded_dispatch_visible_only
           [Examples.shown; Examples.hidden] "" 1).
  - repeat constructor; simpl; intuition discriminate.
  - intros t [<-|[<-|[]]]; simpl; intros; [lia|discriminate].
Defined.

Lemma initIds_codes (tables sub : list tableInfo) :
  NoDup (map tableName tables) -> incl sub tables ->
  Registry.initIds (Catalog.entriesOf tables) (Registry.accessorsOf sub)
  = map (fun t => Some (code t)) (filter exported sub).
Proof.
  intros Hnd Hincl. unfold Registry.initIds, Registry.accessorsOf.
  rewrite map_map. apply map_ext_in. intros t Ht. simpl.
  apply constValue_table; [exact Hnd|].
  apply Hincl. now apply filter_In in Ht as [Ht _].
Qed.

(** C6 (amended): [writeTablesStruct] prints exactly one accessor per
    visible table and none for an internal one, each created with that
    table's catalog id; the accessors come in the order the schema lists
    its tables. *)
Theorem C6_registry_in_schema_order :
  forall (tables : list tableInfo) (w : string),
    NoDup (map tableName tables) ->
    Genlayout.writeTablesStruct tables w
    = Done (tt, (w ++ Registry.render (Registry.accessorsOf tables))%string) /\
    map Registry.member (Registry.accessorsOf tables)
    = map name (filter exported tables) /\
    Registry.initIds (Catalog.entriesOf tables) (Registry.accessorsOf tables)
    = map (fun t => Some (code t)) (filter exported tables).
Proof.
  intros tables w Hnd.
  split; [apply writeTablesStruct_prints|].
  split; [unfold Registry.accessorsOf; now rewrite map_map|].
  now apply initIds_codes, incl_refl.
Qed.

(** The single-table scenario: one accessor, for [T], with id 3. *)
Lemma C6_registry_witness :
  map Registry.member (Registry.accessorsOf [Examples.single]) = ["T"] /\
  Registry.initIds (Catalog.entriesOf [Examples.single])
                   (Registry.accessorsOf [Examples.single])
  = [Some 3].
Proof.
  destruct (C6_registry_in_schema_order [Examples.single] "")
    as (_ & Hm & Hi).
  - repeat constructor; simpl; intuition.
  - split; [exact Hm | exact Hi].
Defined.

(** Visible tables [B] (code 1) and [A] (code 0), declared in that order:
    the accessors are created with ids 1 then 0, while the catalog lists
    0 then 1. *)
Lemma C6_counterexample :
  Registry.initIds (Catalog.entriesOf [Examples.second; Examples.first])
                   (Registry.accessorsOf [Examples.second; Examples.first])
  = [Some 1; Some 0] /\
  map Genlayout.evalue (Catalog.entriesOf [Examples.second; Examples.first])
  = [0; 1] /\
  ~ StronglySorted (fun a b => a <= b) [1; 0].
Proof.
  split; [reflexivity|]. split; [reflexivity|].
  intros H. apply StronglySorted_inv in H as [_ H].
  apply Forall_inv in H. lia.
Qed.

(* ================================================================== *)
(** ** Width formulas *)
(* ================================================================== *)

Section WidthFacts.
Import Width.
Variable la : layout.

Lemma exact_acc (f : list widthTerm) (a : Z) :
  fold_left (fun acc w => acc + termValue la w) f a = a + exactWidth la f.
Proof.
  unfold exactWidth. revert a.
  induction f as [|w f IH]; intros a; simpl; [lia|].
  rewrite IH, (IH (termValue la w)). lia.
Qed.

Lemma exactWidth_cons (w : widthTerm) (f : list widthTerm) :
  exactWidth la (w :: f) = termValue la w + exactWidth la f.
Proof. unfold exactWidth at 1. simpl. now rewrite exact_acc. Qed.

Lemma exactWidth_sum (f : list widthTerm) :
  exactWidth la f = fold_right Z.add 0 (map (termValue la) f).
Proof.
  induction f as [|w f IH]; [reflexivity|].
  rewrite exactWidth_cons, IH. reflexivity.
Qed.

Lemma exactWidth_printed (f : list widthTerm) :
  exactWidth la (printedTerms f) = exactWidth la f.
Proof.
  induction f as [|w f IH]; [reflexivity|].
  unfold printedTerms in *. simpl.
  destruct w; simpl; rewrite ?exactWidth_cons, ?IH; reflexivity.
Qed.

Lemma constPrefix_exact (f : list widthTerm) :
  exactWidth la f = fst (constPrefix f) + exactWidth la (snd (constPrefix f)).
Proof.
  induction f as [|w f IH]; [reflexivity|].
  destruct w; try (simpl; lia).
  simpl. destruct (constPrefix f) as [s r]. simpl in *.
  rewrite exactWidth_cons, IH. simpl. lia.
Qed.

Lemma wrap8_add_l (x y : Z) : wrap8 (wrap8 x + y) = wrap8 (x + y).
Proof. unfold wrap8. apply Z.add_mod_idemp_l. lia. Qed.

Lemma wrap8_small (x : Z) : fits8 x = true -> wrap8 x = x.
Proof. unfold fits8, wrap8. intros H. apply Z.mod_small. lia. Qed.

Lemma wrap8_range (x : Z) : 0 <= wrap8 x <= 255.
Proof. unfold wrap8. pose proof (Z.mod_pos_bound x 256). lia. Qed.

(** Once a layout member has been met every addition is modulo 256. *)
Lemma addAll_typed (rest : list widthTerm) (x : Z) :
  addAll la (Typed (wrap8 x)) rest
  = if forallb laterOK rest
    then Some (Typed (wrap8 (x + exactWidth la rest)))
    else None.
Proof.
  revert x. induction rest as [|w rest IH]; intros x.
  - simpl. unfold exactWidth. simpl. now rewrite Z.add_0_r.
  - rewrite exactWidth_cons.
    destruct w; simpl; try reflexivity;
      try (rewrite wrap8_add_l, IH, Z.add_assoc; reflexivity).
    destruct (fits8 n); [|reflexivity].
    simpl. now rewrite wrap8_add_l, IH, Z.add_assoc.
Qed.

(** Before that, constants are folded exactly. *)
Lemma addAll_untyped (rest : list widthTerm) (c : Z) :
  match addAll la (Untyped c) rest with
  | Some o => returned o
  | None => None
  end
  = if fits8 (c + fst (constPrefix rest))
       && forallb laterOK (snd (constPrefix rest))
    then Some (wrap8 (c + exactWidth la rest))
    else None.
Proof.
  revert c. induction rest as [|w rest IH]; intros c.
  - simpl. unfold exactWidth. simpl. rewrite !Z.add_0_r, andb_true_r.
    destruct (fits8 c) eqn:Hc; [|reflexivity]. now rewrite wrap8_small.
  - rewrite exactWidth_cons.
    destruct w;
      try (simpl; rewrite Z.add_0_r; destruct (fits8 c); [|reflexivity];
           simpl; rewrite addAll_typed;
           destruct (forallb laterOK rest); [|reflexivity];
           simpl; now rewrite Z.add_assoc).
    + simpl. rewrite IH. destruct (constPrefix rest) as [s r]. simpl.
      now rewrite !Z.add_assoc.
    + simpl. now rewrite andb_false_r.
Qed.

Hypothesis la_uint8 : uint8_layout la.

Lemma typed_small (w : widthTerm) :
  printed w = true -> (forall n, w <> TConst n) ->
  wrap8 (termValue la w) = termValue la w.
Proof.
  destruct la_uint8 as (Hc & Hs & Hst & Hg & Hb).
  intros Hp Hn. unfold wrap8.
  destruct w; simpl; try discriminate;
    try (apply Z.mod_small; unfold uint8_range in *;
         first [ specialize (Hc scheme) | specialize (Hs table) | idtac ];
         lia).
  now destruct (Hn n).
Qed.

Lemma evalPrinted_typed (w : widthTerm) (rest : list widthTerm) :
  printed w = true -> (forall n, w <> TConst n) ->
  evalPrinted la (w :: rest)
  = if forallb laterOK rest
    then Some (wrap8 (exactWidth la (w :: rest)))
    else None.
Proof.
  intros Hp Hn. unfold evalPrinted.
  assert (Ho : operandOf la w = Some (Typed (wrap8 (termValue la w)))).
  { rewrite (typed_small w Hp Hn).
    destruct w; try reflexivity; [now destruct (Hn n)|discriminate]. }
  rewrite Ho, addAll_typed, exactWidth_cons.
  destruct (forallb laterOK rest); reflexivity.
Qed.

Lemma evalPrinted_char (g : list widthTerm) :
  evalPrinted la g
  = if acceptedPrinted g then Some (wrap8 (exactWidth la g)) else None.
Proof.
  destruct g as [|w rest]; [reflexivity|].
  destruct w;
    try (rewrite evalPrinted_typed by (reflexivity || discriminate);
         reflexivity).
  - unfold evalPrinted, acceptedPrinted.
    simpl operandOf. cbv iota beta. rewrite addAll_untyped.
    simpl. destruct (constPrefix rest) as [s r]. simpl.
    now rewrite exactWidth_cons.
  - reflexivity.
Qed.

(** What Go computes for a printed formula: the sum modulo 256 when it
    accepts the formula, nothing otherwise. *)
Lemma evalFormula_char (f : list widthTerm) :
  evalFormula la f
  = if accepted f then Some (wrap8 (exactWidth la f)) else None.
Proof.
  unfold evalFormula, accepted.
  destruct (endsEmpty f); [reflexivity|]. simpl.
  now rewrite evalPrinted_char, exactWidth_printed.
Qed.

End WidthFacts.

(** C8 (amended): [writeTableWidth] has no way to fail: on every schema it
    runs to its end.  A field whose column type is none of the seven the
    switch lists gets the empty term, and [writeTableEncoding] prints no
    decode step for it. *)
Theorem C8_width_builder_never_fails :
  forall (tables : list tableInfo) (w : string),
    Genlayout.writeTableWidth tables w
    = Done (tt, (w ++ Width.render tables)%string) /\
    forall f : fieldInfo,
      fcolumnType f = columnTypeOther ->
      Genlayout.widthOf f = ""%string /\
      Width.termOf f = Width.TEmpty /\
      forall t, Decode.stepsOf t f = [] /\
                forall w', Genlayout.writeField t f w' = Done (tt, w').
Proof.
  intros tables w. split; [apply writeTableWidth_prints|].
  intros f Hf.
  unfold Genlayout.widthOf, Width.termOf, Decode.stepsOf, Genlayout.writeField.
  rewrite Hf. repeat split.
Qed.

(** A table with a field of an unlisted column type followed by a two-byte
    integer: the width builder succeeds, the formula reads [ + 2], which Go
    takes as 2, and the decode plan has the single step of the integer. *)
Lemma C8_counterexample :
  Spec.kindOf (mkField "Mystery" "float64" columnTypeOther 0 "" "") = None /\
  Genlayout.writeTableWidth [Examples.odd] ""
  = Done (tt, Width.render [Examples.odd]) /\
  Width.formulaOf Examples.odd = [Width.TEmpty; Width.TConst 2] /\
  Width.renderFormula (Width.formulaOf Examples.odd) = " + 2"%string /\
  Width.evalFormula Examples.la4 (Width.formulaOf Examples.odd) = Some 2 /\
  Decode.planOf Examples.odd = [Decode.mkStep "Value" None Decode.RUint16].
Proof. repeat split; vm_compute; reflexivity. Qed.

(** C10 (amended): the printed [width] method returns a [uint8] and the
    generator reports no error however wide a table is.  When Go accepts
    the printed formula its value is the sum of the field terms modulo 256,
    so a record wider than 255 bytes gets a wrapped width; when it does
    not (the constants in front of the first layout member add up to more
    than 255, a later constant alone exceeds 255, or no last term was
    printed) the method has no value at all. *)
Theorem C10_width_wraps_modulo_256 :
  forall (tables : list tableInfo) (w : string) (t : tableInfo) (la : layout),
    uint8_layout la ->
    Genlayout.writeTableWidth tables w
    = Done (tt, (w ++ Width.render tables)%string) /\
    Width.evalFormula la (Width.formulaOf t)
    = (if Width.accepted (Width.formulaOf t)
       then Some (wrap8 (Width.exactWidth la (Width.formulaOf t)))
       else None) /\
    forall v, Width.evalFormula la (Width.formulaOf t) = Some v ->
              uint8_range v.
Proof.
  intros tables w t la Hla.
  split; [apply writeTableWidth_prints|].
  split; [now apply evalFormula_char|].
  intros v Hv. rewrite (evalFormula_char la Hla) in Hv.
  destruct (Width.accepted _); [|discriminate].
  injection Hv as <-. apply wrap8_range.
Qed.

Lemma la4_uint8 : uint8_layout Examples.la4.
Proof. unfold uint8_layout, uint8_range; simpl; repeat split; intros; lia. Qed.

(** A string index and 63 four-byte integers under four-byte indices: 256
    bytes, and a width of 0. *)
Lemma C10_width_wraps_witness :
  Width.exactWidth Examples.la4 (Width.formulaOf Examples.wide) = 256 /\
  Width.evalFormula Examples.la4 (Width.formulaOf Examples.wide) = Some 0.
Proof.
  split; [reflexivity|].
  destruct (C10_width_wraps_modulo_256 [Examples.wide] "" Examples.wide
              Examples.la4) as (_ & He & _).
  - unfold uint8_layout, uint8_range; simpl; repeat split; intros; lia.
  - rewrite He. reflexivity.
Defined.

(** 64 four-byte integers make 256 bytes under every layout; the printed
    formula is a constant expression that overflows [uint8], so the method
    has no value: neither 256 nor the wrapped 0. *)
Lemma C10_counterexample :
  Width.exactWidth Examples.la4 (Width.formulaOf Examples.allFixed) = 256 /\
  Genlayout.succeeded (Genlayout.writeTableWidth [Examples.allFixed] "")
  = true /\
  Width.evalFormula Examples.la4 (Width.formulaOf Examples.allFixed) = None.
Proof. repeat split; vm_compute; reflexivity. Qed.

(* ================================================================== *)
(** ** Decoding against the record cursor *)
(* ================================================================== *)

Section ReaderFacts.
Import Decode Reader.

Lemma exec_la (o : readOp) (r : recordReader) : la (snd (exec o r)) = la r.
Proof.
  unfold exec, take.
  destruct o; simpl;
    repeat match goal with
           | |- context [if ?b then _ else _] => destruct b
           end; reflexivity.
Qed.

(** A read that finds its bytes moves the cursor by its width and never
    reports exhaustion. *)
Lemma exec_available (o : readOp) (r : recordReader) :
  available (opWidth (la r) o) r = true ->
  pos (snd (exec o r)) = pos r + opWidth (la r) o /\
  rest (snd (exec o r)) = skipn (Z.to_nat (opWidth (la r) o)) (rest r) /\
  (err r <> Some Exhausted -> err (snd (exec o r)) <> Some Exhausted).
Proof.
  intros Ha. unfold exec, take.
  destruct o; simpl in *; rewrite Ha;
    try (simpl; repeat split; auto; fail).
  destruct (tagOK _ _); simpl; repeat split; auto; discriminate.
Qed.


Lemma runStep_snd (st : record * recordReader) (s : step) :
  snd (runStep st s) = snd (exec (op s) (snd st)).
Proof. unfold runStep. now destruct (exec (op s) (snd st)). Qed.



Lemma runPlan_split (k : nat) (plan : list step)
      (st : record * recordReader) :
  runPlan plan st = runPlan (skipn k plan) (runPlan (firstn k plan) st).
Proof.
  unfold runPlan. rewrite <- fold_left_app. now rewrite firstn_skipn.
Qed.


Lemma runPlan_advance (la0 : layout) (plan : list step)
      (rec : record) (r : recordReader) :
  la r = la0 ->
  (forall s, In s plan -> 0 <= opWidth la0 (op s)) ->
  planWidth la0 plan <= Z.of_nat (List.length (rest r)) ->
  pos (snd (runPlan plan (rec, r))) = pos r + planWidth la0 plan /\
  (err r <> Some Exhausted ->
   err (snd (runPlan plan (rec, r))) <> Some Exhausted).
Proof.
  revert rec r. induction plan as [|s plan IH]; intros rec r Hla Hpos Hlen.
  - simpl. unfold planWidth. simpl. split; [lia|auto].
  - unfold planWidth in *. simpl in *.
    assert (Hs : 0 <= opWidth la0 (op s)) by (apply Hpos; now left).
    assert (Hp : 0 <= fold_right Z.add 0
                        (map (fun s => opWidth la0 (op s)) plan)).
    { clear -Hpos. induction plan as [|x plan IH]; simpl; [lia|].
      assert (0 <= opWidth la0 (op x)) by (apply Hpos; right; now left).
      assert (0 <= fold_right Z.add 0
                     (map (fun s => opWidth la0 (op s)) plan)).
      { apply IH. intros y [Hy|Hy]; apply Hpos; [now left|right; now right]. }
      lia. }
    assert (Ha : available (opWidth (la r) (op s)) r = true).
    { unfold available. rewrite Hla. apply andb_true_iff. split; lia. }
    destruct (exec_available (op s) r Ha) as (Hpos1 & Hrest1 & Herr1).
    destruct (runStep (rec, r) s) as [rec1 r1] eqn:Hst.
    assert (Hr1 : r1 = snd (exec (op s) r)).
    { pose proof (runStep_snd (rec, r) s) as H. rewrite Hst in H. exact H. }
    destruct (IH rec1 r1) as (Hpos2 & Herr2).
    + rewrite Hr1, exec_la. exact Hla.
    + intros x Hx. apply Hpos. now right.
    + rewrite Hr1, Hrest1, length_skipn, Hla. lia.
    + split.
      * rewrite Hpos2, Hr1, Hpos1, Hla. lia.
      * intros He. apply Herr2. rewrite Hr1. now apply Herr1.
Qed.

Lemma planWidth_firstn (la0 : layout) (plan : list step) (k : nat) :
  (forall s, In s plan -> 0 <= opWidth la0 (op s)) ->
  0 <= planWidth la0 (firstn k plan) <= planWidth la0 plan.
Proof.
  unfold planWidth. revert k.
  induction plan as [|s plan IH]; intros k Hpos.
  - rewrite firstn_nil. simpl. lia.
  - assert (0 <= opWidth la0 (op s)) by (apply Hpos; now left).
    assert (Hrest : forall x, In x plan -> 0 <= opWidth la0 (op x))
      by (intros x Hx; apply Hpos; now right).
    destruct k as [|k]; simpl.
    + specialize (IH 0%nat Hrest). simpl in IH. lia.
    + specialize (IH k Hrest). lia.
Qed.

(** The step of a field of a known kind reads what its width term says. *)
Lemma stepsOf_known (la0 : layout) (t : tableInfo) (f : fieldInfo) :
  Spec.kindOf f <> None -> uintSizeOK f = true ->
  exists s, stepsOf t f = [s] /\ dest s = fname f /\
            opWidth la0 (op s) = Width.termValue la0 (Width.termOf f).
Proof.
  unfold Spec.kindOf, stepsOf, Width.termOf. intros Hk Hok.
  destruct (fcolumnType f) eqn:Hc; try (eexists; repeat split; fail).
  - destruct (uintSizeOK_size f Hc Hok) as [Hs|[Hs|Hs]]; rewrite Hs;
      eexists; repeat split.
  - now destruct Hk.
Qed.

Lemma planOf_known (la0 : layout) (t : tableInfo) :
  (forall f, In f (fields t) ->
             Spec.kindOf f <> None /\ uintSizeOK f = true) ->
  map dest (planOf t) = map fname (fields t) /\
  map (fun s => opWidth la0 (op s)) (planOf t)
  = map (Width.termValue la0) (Width.formulaOf t).
Proof.
  unfold planOf, Width.formulaOf.
  induction (fields t) as [|f fs IH]; intros Hk; [split; reflexivity|].
  destruct (Hk f (or_introl eq_refl)) as (Hkf & Hok).
  destruct (stepsOf_known la0 t f Hkf Hok) as (s & Hs & Hd & Hw).
  destruct IH as (IH1 & IH2); [intros x Hx; apply Hk; now right|].
  simpl. rewrite Hs. simpl. rewrite Hd, Hw, IH1, IH2. split; reflexivity.
Qed.

End ReaderFacts.

(** C2 (amended): for a table whose fields all have a kind of the data
    model and a supported unsigned size, and a layout of [uint8] widths at
    which the printed width is defined and the field widths add up to at
    most 255, the decode plan has one step per field in field order, each
    step reads exactly the width term of its field, and on a cursor that
    holds at least the width in bytes the plan advances the cursor by
    exactly the value of the width formula, every step ending within that
    boundary and none reporting exhaustion. *)
Theorem C2_decode_plan_matches_width :
  forall (t : tableInfo) (r : Reader.recordReader) (rec : Reader.record)
         (wd : Z),
    (forall f, In f (fields t) ->
               Spec.kindOf f <> None /\ Decode.uintSizeOK f = true) ->
    uint8_layout (Reader.la r) ->
    Width.evalFormula (Reader.la r) (Width.formulaOf t) = Some wd ->
    Width.exactWidth (Reader.la r) (Width.formulaOf t) <= 255 ->
    wd <= Z.of_nat (List.length (Reader.rest r)) ->
    Reader.err r = None ->
    (forall w, Genlayout.writeTableEncoding [t] w
               = Done (tt, (w ++ Decode.render [t])%string)) /\
    map Decode.dest (Decode.planOf t) = map fname (fields t) /\
    map (fun s => Reader.opWidth (Reader.la r) (Decode.op s)) (Decode.planOf t)
    = map (Width.termValue (Reader.la r)) (Width.formulaOf t) /\
    Reader.pos (snd (fst (Reader.decode (Decode.planOf t) rec r)))
    = Reader.pos r + wd /\
    snd (Reader.decode (Decode.planOf t) rec r) <> Some Reader.Exhausted /\
    forall k : nat,
      Reader.pos r
      <= Reader.pos (snd (Reader.runPlan (firstn k (Decode.planOf t)) (rec, r)))
      <= Reader.pos r + wd.
Proof.
  intros t r rec wd Hk Hla Hev Hexact Hlen Herr.
  destruct (planOf_known (Reader.la r) t Hk) as (Hdest & Hwidths).
  assert (Hnn : forall s, In s (Decode.planOf t) ->
                          0 <= Reader.opWidth (Reader.la r) (Decode.op s)).
  { intros s Hs. destruct Hla as (Hc & Hs' & Hst & Hg & Hb).
    unfold uint8_range in *.
    destruct (Decode.op s); simpl;
      first [ specialize (Hc scheme) | specialize (Hs' table)
            | specialize (Hs' target) | idtac ]; lia. }
  assert (Hpw : Reader.planWidth (Reader.la r) (Decode.planOf t)
                = Width.exactWidth (Reader.la r) (Width.formulaOf t)).
  { unfold Reader.planWidth. now rewrite Hwidths, exactWidth_sum. }
  assert (Hwd : wd = Reader.planWidth (Reader.la r) (Decode.planOf t)).
  { rewrite (evalFormula_char _ Hla) in Hev.
    destruct (Width.accepted _); [|discriminate]. injection Hev as <-.
    rewrite Hpw. apply wrap8_small. unfold Width.fits8.
    pose proof (planWidth_firstn (Reader.la r) (Decode.planOf t) 0 Hnn) as H0.
    rewrite Hpw in H0. simpl in H0. lia. }
  split.
  { intros w. apply writeTableEncoding_prints.
    intros t' f [<-|[]] Hf. now apply Hk. }
  split; [exact Hdest|]. split; [exact Hwidths|].
  destruct (runPlan_advance (Reader.la r) (Decode.planOf t) rec r eq_refl Hnn)
    as (Hpos & Hnoex); [lia|].
  split; [unfold Reader.decode; simpl; rewrite Hpos; lia|].
  split.
  { unfold Reader.decode. simpl. apply Hnoex. rewrite Herr. discriminate. }
  intros k.
  pose proof (planWidth_firstn (Reader.la r) (Decode.planOf t) k Hnn) as Hk'.
  destruct (runPlan_advance (Reader.la r) (firstn k (Decode.planOf t)) rec r
              eq_refl) as (Hposk & _).
  - intros s Hs. apply Hnn.
    rewrite <- (firstn_skipn k (Decode.planOf t)). apply in_or_app. now left.
  - lia.
  - rewrite Hposk. lia.
Qed.

(** The table with one field of every kind on a record of 28 bytes under
    four-byte indices: seven steps in field order and a cursor that ends
    at 28. *)
Lemma C2_decode_plan_witness :
  map Decode.dest (Decode.planOf Examples.allKinds)
  = ["Flags"; "Name"; "Sig"; "Mvid"; "Extends"; "Parent"; "FieldList"]%string /\
  Reader.pos
    (snd (fst (Reader.decode (Decode.planOf Examples.allKinds)
                 Reader.zeroRecord
                 (Examples.readerOn (Examples.zeros 28)))))
  = 28.
Proof.
  destruct (C2_decode_plan_matches_width Examples.allKinds
              (Examples.readerOn (Examples.zeros 28)) Reader.zeroRecord 28)
    as (_ & Hd & _ & Hp & _).
  - intros f Hf. simpl in Hf.
    repeat (destruct Hf as [<-|Hf]; [split; [discriminate|reflexivity]|]).
    destruct Hf.
  - exact la4_uint8.
  - reflexivity.
  - vm_compute. discriminate.
  - vm_compute. discriminate.
  - reflexivity.
  - split; [exact Hd | exact Hp].
Defined.

(** Under four-byte indices the table of a string index and 63 four-byte
    integers has the width formula value 0, yet its plan moves the cursor
    by 256 bytes without any fault; and the table without fields has a plan
    that moves the cursor by 0 but no value of the width formula at all. *)
Lemma C2_counterexample :
  (Width.evalFormula Examples.la4 (Width.formulaOf Examples.wide) = Some 0 /\
   Reader.pos
     (snd (fst (Reader.decode (Decode.planOf Examples.wide) Reader.zeroRecord
                  (Examples.readerOn (Examples.zeros 256)))))
   = 256 /\
   snd (Reader.decode (Decode.planOf Examples.wide) Reader.zeroRecord
          (Examples.readerOn (Examples.zeros 256)))
   = None) /\
  (Decode.planOf Examples.bare = [] /\
   Width.evalFormula Examples.la4 (Width.formulaOf Examples.bare) = None).
Proof. repeat split; vm_compute; reflexivity. Qed.







(* ================================================================== *)
(** ** When the generator stops *)
(* ================================================================== *)

Lemma forEach_app {A} (xs ys : list A) (body : A -> Gen unit) (w : string) :
  forEach (xs ++ ys) body w
  = bind (forEach xs body) (fun _ => forEach ys body) w.
Proof.
  revert w. induction xs as [|x xs IH]; intros w; [reflexivity|].
  simpl. unfold bind in *.
  destruct (body x w) as [[a w']|m|m]; [|reflexivity|reflexivity].
  apply IH.
Qed.

Lemma forEach_stops {A} (pre post : list A) (x : A) (body : A -> Gen unit)
      (f : A -> string) (msg : string) :
  (forall y w, In y pre -> body y w = Done (tt, (w ++ f y)%string)) ->
  (forall w, body x w = Fatal msg) ->
  forall w, forEach (pre ++ x :: post) body w = Fatal msg.
Proof.
  intros Hpre Hx w. rewrite forEach_app.
  rewrite (bind_forEach pre body f) by exact Hpre.
  simpl. unfold bind. now rewrite Hx.
Qed.

(** The first element a test rejects. *)
Lemma first_rejected {A} (p : A -> bool) (l : list A) :
  forallb p l = false ->
  exists pre x post,
    l = (pre ++ x :: post)%list /\ forallb p pre = true /\ p x = false.
Proof.
  induction l as [|a l IH]; [discriminate|]. simpl.
  destruct (p a) eqn:Ha; simpl.
  - intros H. destruct (IH H) as (pre & x & post & -> & Hp & Hx).
    exists (a :: pre), x, post. simpl. rewrite Ha. now repeat split.
  - intros _. exists [], a, l. now repeat split.
Qed.

(** X2: [writeTableEncoding] stops at the first unsigned column, in table
    order and then field order, whose size is not 1, 2 or 4, with the
    message [unsupported uint size N] for that column's size, whatever
    comes after it; [writeTableWidth] on the same schema does not stop. *)
Theorem writeTableEncoding_stops_at_first_bad_size :
  forall (pre post : list tableInfo) (t : tableInfo)
         (fpre fpost : list fieldInfo) (f : fieldInfo) (w : string),
    (forall t' f', In t' pre -> In f' (fields t') ->
                   Decode.uintSizeOK f' = true) ->
    fields t = (fpre ++ f :: fpost)%list ->
    (forall f', In f' fpre -> Decode.uintSizeOK f' = true) ->
    Decode.uintSizeOK f = false ->
    Genlayout.writeTableEncoding (pre ++ t :: post) w
    = Fatal ("unsupported uint size " ++ Itoa (size f)) /\
    Genlayout.succeeded (Genlayout.writeTableWidth (pre ++ t :: post) w)
    = true.
Proof.
  intros pre post t fpre fpost f w Hpre Hfields Hfpre Hbad.
  split; [|now rewrite writeTableWidth_prints].
  unfold Genlayout.writeTableEncoding. rewrite !bind_Fprintf.
  apply (forEach_stops pre post t _ Decode.renderDecode).
  - intros t' w' Ht'. rewrite bind_Fprintf.
    rewrite (bind_forEach (fields t') _
               (fun f => cat (map Decode.renderStep (Decode.stepsOf t' f)))).
    + rewrite !bind_Fprintf. unfold Fprintf, Decode.renderDecode, Decode.planOf.
      rewrite cat_flat_map. f_equal; f_equal; norm_text.
    + intros f' w'' Hf'. apply writeField_prints. now apply (Hpre t').
  - intros w'. rewrite bind_Fprintf. rewrite Hfields.
    unfold bind.
    rewrite (forEach_stops fpre fpost f (Genlayout.writeField t)
               (fun f => cat (map Decode.renderStep (Decode.stepsOf t f)))
               ("unsupported uint size " ++ Itoa (size f))).
    + reflexivity.
    + intros f' w'' Hf'. apply writeField_prints. now apply Hfpre.
    + intros w''. now apply writeField_fatal.
Qed.

(** A table with integers of 2, 3 and 5 bytes after a sound table: the
    run stops at the 3. *)
Lemma writeTableEncoding_stops_witness :
  Genlayout.writeTableEncoding [Examples.single; Cases.odd3] ""
  = Fatal "unsupported uint size 3".
Proof.
  apply (writeTableEncoding_stops_at_first_bad_size
           [Examples.single] [] Cases.odd3
           [Examples.uintField "A" 2] [Examples.uintField "C" 5]
           (Examples.uintField "B" 3) "").
  - intros t' f' [<-|[]] [<-|[]]. reflexivity.
  - reflexivity.
  - intros f' [<-|[]]. reflexivity.
  - reflexivity.
Defined.

(** The run stops at the first unsigned column of unsupported size. *)
Lemma generate_fatal_first (tables : list tableInfo) :
  tables <> [] ->
  forallb (fun t => forallb Decode.uintSizeOK (fields t)) tables = false ->
  exists pre t post fpre f fpost,
    tables = (pre ++ t :: post)%list /\
    (forall t' f', In t' pre -> In f' (fields t') ->
                   Decode.uintSizeOK f' = true) /\
    fields t = (fpre ++ f :: fpost)%list /\
    (forall f', In f' fpre -> Decode.uintSizeOK f' = true) /\
    Decode.uintSizeOK f = false /\
    Genlayout.generate tables
    = Fatal ("unsupported uint size " ++ Itoa (size f)).
Proof.
  intros Hne Hbad.
  destruct (first_rejected _ _ Hbad) as (pre & t & post & Ht & Hpre & Hx).
  destruct (first_rejected _ _ Hx) as (fpre & f & fpost & Hf & Hfpre & Hfx).
  assert (Hpre' : forall t' f', In t' pre -> In f' (fields t') ->
                                Decode.uintSizeOK f' = true).
  { intros t' f' Ht' Hf'. rewrite forallb_forall in Hpre.
    specialize (Hpre t' Ht'). rewrite forallb_forall in Hpre.
    now apply Hpre. }
  assert (Hfpre' : forall f', In f' fpre -> Decode.uintSizeOK f' = true).
  { intros f' Hf'. rewrite forallb_forall in Hfpre. now apply Hfpre. }
  exists pre, t, post, fpre, f, fpost.
  do 5 (split; [assumption|]).
  destruct tables as [|t0 tables0]; [contradiction|].
  destruct (catalogOf_cons t0 tables0) as (e & es & _ & Hc).
  unfold Genlayout.generate, Genlayout.writePrelude.
  rewrite bind_Fprintf.
  erewrite bind_Done by apply writeCodedTable_prints.
  erewrite bind_Done by (apply writeTableValues_prints; exact Hc).
  erewrite bind_Done by apply writeTableWidth_prints.
  erewrite bind_Done by apply writeTableImpl_prints.
  erewrite bind_Done by apply writeTablesStruct_prints.
  rewrite Ht. unfold Genlayout.writeTableEncoding. rewrite !bind_Fprintf.
  apply (forEach_stops pre post t _ Decode.renderDecode).
  - intros t' w' Ht'. rewrite bind_Fprintf.
    rewrite (bind_forEach (fields t') _
               (fun f' => cat (map Decode.renderStep (Decode.stepsOf t' f')))).
    + rewrite !bind_Fprintf. unfold Fprintf, Decode.renderDecode, Decode.planOf.
      rewrite cat_flat_map. f_equal; f_equal; norm_text.
    + intros f' w'' Hf'. apply writeField_prints. now apply (Hpre' t').
  - intros w'. rewrite bind_Fprintf. rewrite Hf.
    unfold bind.
    rewrite (forEach_stops fpre fpost f (Genlayout.writeField t)
               (fun f' => cat (map Decode.renderStep (Decode.stepsOf t f')))
               ("unsupported uint size " ++ Itoa (size f))).
    + reflexivity.
    + intros f' w'' Hf'. apply writeField_prints. now apply Hfpre'.
    + intros w''. now apply writeField_fatal.
Qed.

Lemma generate_fatal (tables : list tableInfo) :
  tables <> [] ->
  forallb (fun t => forallb Decode.uintSizeOK (fields t)) tables = false ->
  exists n, Genlayout.generate tables
            = Fatal ("unsupported uint size " ++ Itoa n).
Proof.
  intros Hne Hbad.
  destruct (generate_fatal_first tables Hne Hbad)
    as (_ & _ & _ & _ & f & _ & _ & _ & _ & _ & _ & Hg).
  now exists (size f).
Qed.

(** X1: the writing half of [main] reaches its end exactly on the schemas
    that have at least one table and whose unsigned columns all have size
    1, 2 or 4; on every other schema it ends in the index panic of the
    empty catalog or in [unsupported uint size]. *)
Theorem generate_succeeds_iff :
  forall tables : list tableInfo,
    (Genlayout.succeeded (Genlayout.generate tables) = true <->
     tables <> [] /\
     forall t f, In t tables -> In f (fields t) ->
                 Decode.uintSizeOK f = true) /\
    (Genlayout.succeeded (Genlayout.generate tables) = false ->
     Genlayout.generate tables
     = Panic "runtime error: index out of range [-1]" \/
     exists n, Genlayout.generate tables
               = Fatal ("unsupported uint size " ++ Itoa n)).
Proof.
  intros tables.
  destruct tables as [|t0 tables0].
  { split; [split; [discriminate|intros [H _]; now destruct H]|].
    intros _. now left. }
  set (tables := t0 :: tables0).
  assert (Hne : tables <> []) by discriminate.
  destruct (forallb (fun t => forallb Decode.uintSizeOK (fields t)) tables)
    eqn:Hall.
  - assert (Hok : forall t f, In t tables -> In f (fields t) ->
                              Decode.uintSizeOK f = true).
    { intros t f Ht Hf. rewrite forallb_forall in Hall.
      specialize (Hall t Ht). rewrite forallb_forall in Hall. now apply Hall. }
    destruct (generate_done tables Hne Hok) as (text & Hg).
    rewrite Hg. split; [split; [now split|reflexivity]|discriminate].
  - destruct (generate_fatal tables Hne Hall) as (n & Hg).
    rewrite Hg. split.
    + split; [discriminate|]. intros [_ Hok]. exfalso.
      assert (forallb (fun t => forallb Decode.uintSizeOK (fields t)) tables
              = true); [|congruence].
      apply forallb_forall. intros t Ht. apply forallb_forall.
      intros f Hf. now apply (Hok t f).
    + intros _. right. now exists n.
Qed.

(* ================================================================== *)
(** ** Looking tables up by code *)
(* ================================================================== *)

Lemma find_none {A} (p : A -> bool) (l : list A) :
  (forall x, In x l -> p x = false) -> find p l = None.
Proof.
  induction l as [|a l IH]; intros H; [reflexivity|]. simpl.
  rewrite (H a (or_introl eq_refl)). apply IH. intros x Hx. apply H. now right.
Qed.

(** With unique codes the search for a table's code ends at that table. *)
Lemma find_by_code (p : tableInfo -> bool) (l : list tableInfo)
      (t : tableInfo) :
  NoDup (map code l) -> In t l ->
  find (fun x => p x && (code x =? code t)) l
  = if p t then Some t else None.
Proof.
  induction l as [|a l IH]; intros Hnd Hin; [contradiction|].
  simpl in Hnd. apply NoDup_cons_iff in Hnd as [Ha Hnd]. simpl.
  destruct Hin as [->|Hin].
  - rewrite Z.eqb_refl, andb_true_r. destruct (p t); [reflexivity|].
    apply find_none. intros x Hx.
    destruct (Z.eqb_spec (code x) (code t)) as [E|_];
      [|now rewrite andb_false_r].
    exfalso. apply Ha. rewrite <- E. now apply in_map.
  - destruct (Z.eqb_spec (code a) (code t)) as [E|_].
    + exfalso. apply Ha. rewrite E. now apply in_map.
    + rewrite andb_false_r. now apply IH.
Qed.







(** X4: with unique table names and codes, the printed [CodedTable]
    returns for the code of a visible table that table's member of
    [Tables], and nil for the code of an internal table. *)
Theorem coded_dispatch_round_trip :
  forall (tables : list tableInfo) (t : tableInfo),
    NoDup (map tableName tables) ->
    NoDup (map code tables) ->
    In t tables ->
    Dispatch.CodedTable (Catalog.entriesOf tables) (Dispatch.casesOf tables)
                        (code t)
    = Returned (if exported t then Some (name t) else None).
Proof.
  intros tables t Hnames Hcodes Ht.
  rewrite (CodedTable_find tables tables (code t) Hnames (incl_refl _)).
  rewrite (find_by_code exported tables t Hcodes Ht).
  now destruct (exported t).
Qed.

Lemma coded_dispatch_round_trip_witness :
  Dispatch.CodedTable (Catalog.entriesOf [Examples.shown; Examples.hidden])
                      (Dispatch.casesOf [Examples.shown; Examples.hidden]) 0
  = Returned (Some "A"%string).
Proof.
  apply (coded_dispatch_round_trip [Examples.shown; Examples.hidden]
           Examples.shown).
  - repeat constructor; simpl; intuition discriminate.
  - repeat constructor; simpl; intuition discriminate.
  - now left.
Defined.





(** X14: for every schema with at least one table, equal codes or not,
    and for every ascending arrangement of its constants the sort may
    leave, [writeTableValues] prints the constants in that order and
    bases [tableMax] on the last of them, which is the constant of a table
    whose code is the largest of the schema. *)
Theorem catalog_of_any_schema :
  forall (tables : list tableInfo) (es : list Genlayout.entry),
    tables <> [] ->
    Permutation es
      (map (fun t => Genlayout.mkEntry (tableName t) (code t)) tables) ->
    StronglySorted (keyLe Genlayout.evalue) es ->
    exists e t,
      (forall w, Genlayout.printConstants es w
                 = Done (tt,
                         (w ++ Catalog.render
                                 (Catalog.mkCatalog es (Genlayout.ename e)))
                         %string)) /\
      In t tables /\
      Genlayout.ename e = tableName t /\
      Genlayout.evalue e = code t /\
      forall t', In t' tables -> code t' <= code t.
Proof.
  intros tables es Hne Hperm Hsorted.
  assert (Hm : map (fun t => Genlayout.mkEntry (tableName t) (code t))
                   tables <> [])
    by (destruct tables; [contradiction|discriminate]).
  destruct (perm_last _ _ Hm Hperm) as (e & rest & Hr).
  assert (He : In e es) by (apply in_rev; rewrite Hr; now left).
  assert (Hin : In e (map (fun t => Genlayout.mkEntry (tableName t) (code t))
                          tables))
    by (eapply Permutation_in; [exact Hperm|exact He]).
  apply in_map_iff in Hin as (t & Hte & Ht).
  exists e, t. split; [intros w; now apply (printConstants_prints _ e rest)|].
  split; [exact Ht|]. subst e. split; [reflexivity|]. split; [reflexivity|].
  intros t' Ht'.
  apply (sorted_last_max Genlayout.evalue es _ rest Hsorted Hr
           (Genlayout.mkEntry (tableName t') (code t'))).
  eapply Permutation_in; [apply Permutation_sym; exact Hperm|].
  apply in_map_iff. now exists t'.
Qed.

(** Two tables with code 5, left by the sort in the order [B], [A]:
    [tableMax] is based on [tableA]. *)
Lemma catalog_of_any_schema_witness :
  exists e t,
    Genlayout.printConstants
      [Genlayout.mkEntry "tableB" 5; Genlayout.mkEntry "tableA" 5] ""
    = Done (tt,
            Catalog.render
              (Catalog.mkCatalog
                 [Genlayout.mkEntry "tableB" 5; Genlayout.mkEntry "tableA" 5]
                 (Genlayout.ename e))) /\
    In t [Examples.dupA; Examples.dupB] /\
    Genlayout.ename e = tableName t.
Proof.
  destruct (catalog_of_any_schema [Examples.dupA; Examples.dupB]
              [Genlayout.mkEntry "tableB" 5; Genlayout.mkEntry "tableA" 5])
    as (e & t & Hp & Ht & Hn & _).
  - discriminate.
  - apply perm_swap.
  - repeat constructor; unfold keyLe; simpl; lia.
  - exists e, t. split; [apply (Hp "")|]. now split.
Defined.

(* ================================================================== *)
(** ** Schemas listed in ascending code order *)
(* ================================================================== *)

Lemma sorted_map {A B} (R : B -> B -> Prop) (f : A -> B) (l : list A) :
  StronglySorted (fun a b => R (f a) (f b)) l -> StronglySorted R (map f l).
Proof.
  induction 1 as [|a l Hs IH Hall]; simpl; constructor; [exact IH|].
  rewrite Forall_forall in *. intros y Hy.
  apply in_map_iff in Hy as (x & <- & Hx). now apply Hall.
Qed.

Lemma sorted_filter {A} (R : A -> A -> Prop) (p : A -> bool) (l : list A) :
  StronglySorted R l -> StronglySorted R (filter p l).
Proof.
  induction 1 as [|a l Hs IH Hall]; simpl; [constructor|].
  destruct (p a); [|exact IH]. constructor; [exact IH|].
  rewrite Forall_forall in *. intros y Hy.
  apply filter_In in Hy as [Hy _]. now apply Hall.
Qed.

Lemma sorted_codes_nodup (l : list tableInfo) :
  StronglySorted (fun a b => code a < code b) l -> NoDup (map code l).
Proof.
  induction 1 as [|a l Hs IH Hall]; simpl; constructor; [|exact IH].
  intros Hin. apply in_map_iff in Hin as (x & E & Hx).
  rewrite Forall_forall in Hall. specialize (Hall x Hx). lia.
Qed.

(** X6: when a schema with unique table names lists its tables in strictly
    ascending code order, the catalog keeps the order of the schema and the
    accessors of [initTables] are created with strictly ascending ids. *)
Theorem ascending_schema_keeps_order :
  forall tables : list tableInfo,
    StronglySorted (fun a b => code a < code b) tables ->
    NoDup (map tableName tables) ->
    Catalog.entriesOf tables
    = map (fun t => Genlayout.mkEntry (tableName t) (code t)) tables /\
    Registry.initIds (Catalog.entriesOf tables) (Registry.accessorsOf tables)
    = map Some (map code (filter exported tables)) /\
    StronglySorted Z.lt (map code (filter exported tables)).
Proof.
  intros tables Hs Hnames. split; [|split].
  - apply (strict_sorted_unique Genlayout.evalue).
    + apply sorted_strict; [|apply entriesOf_sorted].
      eapply Permutation_NoDup;
        [apply Permutation_sym, entriesOf_values|now apply sorted_codes_nodup].
    + apply (sorted_map (fun a b => Genlayout.evalue a < Genlayout.evalue b)).
      exact Hs.
    + apply entriesOf_perm.
  - rewrite (initIds_codes tables tables Hnames (incl_refl _)).
    now rewrite map_map.
  - apply (sorted_map Z.lt code). now apply sorted_filter.
Qed.

Lemma ascending_schema_witness :
  Catalog.entriesOf [Examples.first; Examples.second]
  = [Genlayout.mkEntry "tableA" 0; Genlayout.mkEntry "tableB" 1] /\
  Registry.initIds (Catalog.entriesOf [Examples.first; Examples.second])
                   (Registry.accessorsOf [Examples.first; Examples.second])
  = [Some 0; Some 1].
Proof.
  destruct (ascending_schema_keeps_order [Examples.first; Examples.second])
    as (He & Hi & _).
  - repeat constructor; simpl; lia.
  - repeat constructor; simpl; intuition discriminate.
  - split; [exact He | exact Hi].
Defined.

(* ================================================================== *)
(** ** Widths that do not wrap *)
(* ================================================================== *)

Section WidthValues.
Import Width.

Lemma endsEmpty_printed (f : list widthTerm) :
  Forall (fun w => printed w = true) f -> endsEmpty f = false.
Proof.
  intros Hall. unfold endsEmpty.
  destruct (rev f) as [|w ws] eqn:Hr; [reflexivity|].
  assert (Hw : In w f) by (apply in_rev; rewrite Hr; now left).
  rewrite Forall_forall in Hall. specialize (Hall w Hw).
  destruct w; try reflexivity; discriminate.
Qed.

Lemma printedTerms_all (f : list widthTerm) :
  Forall (fun w => printed w = true) f -> printedTerms f = f.
Proof.
  unfold printedTerms. induction 1 as [|w f Hw Hall IH]; [reflexivity|].
  simpl. now rewrite Hw, IH.
Qed.

Lemma good_rest (la : layout) (f : list widthTerm) :
  Forall (Printed.soundTerm la) f ->
  Forall (Printed.soundTerm la) (snd (constPrefix f)) /\ 0 <= fst (constPrefix f).
Proof.
  induction 1 as [|w f Hw Hall IH]; [split; [constructor|simpl; lia]|].
  destruct w; try (simpl; split; [now constructor|lia]).
  simpl. destruct (constPrefix f) as [c r]. simpl in *.
  destruct IH as [IH1 IH2]. split; [exact IH1|].
  destruct Hw as (_ & _ & Hn). simpl in Hn. lia.
Qed.

Lemma good_nonneg (la : layout) (f : list widthTerm) :
  Forall (Printed.soundTerm la) f -> 0 <= exactWidth la f.
Proof.
  induction 1 as [|w f Hw Hall IH]; [unfold exactWidth; simpl; lia|].
  rewrite exactWidth_cons. destruct Hw as (_ & _ & Hn). lia.
Qed.

Lemma good_accepted (la : layout) (f : list widthTerm) :
  f <> [] -> Forall (Printed.soundTerm la) f -> exactWidth la f <= 255 ->
  accepted f = true.
Proof.
  intros Hne Hall Hsmall. unfold accepted.
  assert (Hp : Forall (fun w => printed w = true) f).
  { eapply Forall_impl; [|exact Hall]. now intros w (H & _). }
  rewrite endsEmpty_printed, printedTerms_all by exact Hp. simpl.
  destruct f as [|w rest]; [contradiction|]. unfold acceptedPrinted.
  pose proof (constPrefix_exact la (w :: rest)) as Hex.
  destruct (good_rest la (w :: rest) Hall) as (Hr & Hc).
  pose proof (good_nonneg la _ Hr) as Hrn.
  destruct (constPrefix (w :: rest)) as [c r]. simpl in *.
  apply andb_true_iff. split.
  - unfold fits8. apply andb_true_iff. split; lia.
  - apply forallb_forall. intros x Hx.
    rewrite Forall_forall in Hr. now destruct (Hr x Hx) as (_ & H & _).
Qed.

Lemma termOf_good (la : layout) (f : fieldInfo) :
  uint8_layout la ->
  Spec.kindOf f <> None -> Decode.uintSizeOK f = true ->
  Printed.soundTerm la (termOf f).
Proof.
  intros (Hc & Hs & Hst & Hg & Hb) Hk Hok.
  unfold Spec.kindOf in Hk. unfold termOf, Printed.soundTerm, uint8_range in *.
  destruct (fcolumnType f) eqn:Hct; simpl;
    try (pose proof (Hc (coded f)); pose proof (Hs (ftableName f));
         repeat split; lia).
  - destruct (uintSizeOK_size f Hct Hok) as [E|[E|E]]; rewrite E;
      simpl; repeat split; lia.
  - now destruct Hk.
Qed.

End WidthValues.

(** [strings.Join] puts the separator in front of every element but the
    first. *)
Lemma Join_cons (e : string) (rest : list string) (sep : string) :
  Join (e :: rest) sep = (e ++ cat (map (fun g => sep ++ g) rest))%string.
Proof.
  revert e. induction rest as [|r rs IH]; intros e.
  - simpl. now rewrite sapp_nil_r.
  - change (Join (e :: r :: rs) sep)
      with (e ++ sep ++ Join (r :: rs) sep)%string.
    rewrite IH. simpl. now rewrite sapp_assoc.
Qed.

Lemma cat_render_split (tables : list tableInfo) (t : tableInfo) :
  In t tables ->
  exists pre post,
    cat (map Width.renderCase tables)
    = (pre ++ Width.renderCase t ++ post)%string.
Proof.
  intros Ht. apply in_split in Ht as (l1 & l2 & ->).
  exists (cat (map Width.renderCase l1)), (cat (map Width.renderCase l2)).
  now rewrite map_app, cat_app.
Qed.

(** C1 (amended): for every table of a schema whose fields all have a kind
    of the data model, [writeTableWidth] prints in the table's case the
    term of the first field and then, for every further field in field
    order, [ + ] and the term of that field; the term of a field is the one
    its kind calls for: the constant [sizeBytes] for [FixedInt], the heap
    width for [HeapIndex], the table-index width of the target for
    [TableRef] and for [RowRange], the coded-index width of the scheme for
    [CodedRef].  The value Go gives the printed formula is the sum of the
    field terms modulo 256 when Go accepts it and none otherwise: it is
    the sum itself for a table with at least one field, supported integer
    sizes and a sum of at most 255, and there is no value for a table
    without fields. *)
Theorem C1_width_formula_by_kind :
  forall (tables : list tableInfo) (w : string) (t : tableInfo)
         (kinds : list Spec.FieldKind),
    In t tables ->
    map Spec.kindOf (fields t) = map Some kinds ->
    Genlayout.writeTableWidth tables w
    = Done (tt, (w ++ Width.render tables)%string) /\
    (exists pre post,
        Width.render tables
        = (pre ++ Width.renderCase t ++ post)%string) /\
    Width.renderCase t
    = (tab ++ "case " ++ tableName t ++ ":" ++ nl ++
       tab ++ tab ++ "return " ++
       match fields t with
       | [] => ""
       | f :: fs =>
           Genlayout.widthOf f
           ++ cat (map (fun g => " + " ++ Genlayout.widthOf g) fs)
       end ++ nl)%string /\
    List.length (Width.formulaOf t) = List.length (fields t) /\
    forall la : layout,
      map (Width.termValue la) (Width.formulaOf t)
      = map (Spec.fieldWidth (Spec.contextOf la)) kinds /\
      (uint8_layout la ->
       Width.evalFormula la (Width.formulaOf t)
       = if Width.accepted (Width.formulaOf t)
         then Some (wrap8 (fold_right Z.add 0
                             (map (Spec.fieldWidth (Spec.contextOf la))
                                  kinds)))
         else None) /\
      (uint8_layout la ->
       fields t <> [] ->
       (forall f, In f (fields t) -> Decode.uintSizeOK f = true) ->
       fold_right Z.add 0 (map (Spec.fieldWidth (Spec.contextOf la)) kinds)
       <= 255 ->
       Width.evalFormula la (Width.formulaOf t)
       = Some (fold_right Z.add 0
                 (map (Spec.fieldWidth (Spec.contextOf la)) kinds))) /\
      (fields t = [] ->
       Width.evalFormula la (Width.formulaOf t) = None).
Proof.
  intros tables w t kinds Ht Hk.
  split; [apply writeTableWidth_prints|].
  split.
  { destruct (cat_render_split tables t Ht) as (pre & post & E).
    unfold Width.render. do 8 apply inside_l. rewrite E.
    match goal with
    | |- exists _ _, (_ ++ ?f)%string = _ => exists pre, (post ++ f)%string
    end.
    now rewrite !sapp_assoc. }
  split.
  { unfold Width.renderCase, Width.renderFormula, Width.formulaOf.
    do 7 f_equal. rewrite map_map.
    rewrite (map_ext _ Genlayout.widthOf)
      by (intros f; symmetry; apply widthOf_render).
    destruct (fields t) as [|f fs]; [reflexivity|].
    change (map Genlayout.widthOf (f :: fs))
      with (Genlayout.widthOf f :: map Genlayout.widthOf fs).
    now rewrite Join_cons, map_map. }
  split; [unfold Width.formulaOf; apply length_map|].
  intros la.
  assert (Hv : map (Width.termValue la) (Width.formulaOf t)
               = map (Spec.fieldWidth (Spec.contextOf la)) kinds).
  { unfold Width.formulaOf. clear Ht. revert kinds Hk.
    induction (fields t) as [|f fs IH]; intros [|k ks] Hk;
      try discriminate; [reflexivity|].
    simpl in Hk. injection Hk as Hf Hfs. simpl.
    rewrite (IH ks Hfs). f_equal.
    unfold Spec.kindOf in Hf. unfold Width.termOf.
    destruct (fcolumnType f); try discriminate;
      injection Hf as <-; reflexivity. }
  assert (Hsum : Width.exactWidth la (Width.formulaOf t)
                 = fold_right Z.add 0
                     (map (Spec.fieldWidth (Spec.contextOf la)) kinds))
    by now rewrite exactWidth_sum, Hv.
  split; [exact Hv|]. split; [|split].
  - intros Hla. now rewrite (evalFormula_char la Hla), Hsum.
  - intros Hla Hne Hok Hsmall. rewrite <- Hsum in *.
    assert (Hall : Forall (Printed.soundTerm la) (Width.formulaOf t)).
    { unfold Width.formulaOf. apply Forall_forall. intros x Hx.
      apply in_map_iff in Hx as (f & <- & Hf).
      apply termOf_good; [exact Hla| |now apply Hok].
      assert (Hin : In (Spec.kindOf f) (map Spec.kindOf (fields t)))
        by now apply in_map.
      rewrite Hk in Hin. apply in_map_iff in Hin as (k & <- & _).
      discriminate. }
    rewrite (evalFormula_char la Hla).
    rewrite (good_accepted la); [| |exact Hall|exact Hsmall].
    + f_equal. apply wrap8_small. unfold Width.fits8.
      pose proof (good_nonneg la _ Hall). apply andb_true_iff. split; lia.
    + unfold Width.formulaOf.
      destruct (fields t); [contradiction|discriminate].
  - intros He. unfold Width.formulaOf. now rewrite He.
Qed.

(** A table with one field of every kind, at a layout of four-byte
    indices: seven terms of four bytes, and a width of 28. *)
Lemma C1_width_formula_witness :
  map (Width.termValue Examples.la4) (Width.formulaOf Examples.allKinds)
  = [4; 4; 4; 4; 4; 4; 4] /\
  Width.evalFormula Examples.la4 (Width.formulaOf Examples.allKinds)
  = Some 28 /\
  Width.renderCase Examples.allKinds
  = (tab ++ "case tableTypeDef:" ++ nl ++
     tab ++ tab ++ "return 4 + la.stringSize + la.blobSize + la.guidSize"
     ++ " + la.codedSizes[codedTypeDefOrRef]"
     ++ " + la.simpleSizes[tableModule] + la.simpleSizes[tableField]"
     ++ nl)%string.
Proof.
  destruct (C1_width_formula_by_kind [Examples.allKinds] ""
              Examples.allKinds
              [Spec.FixedInt 4; Spec.HeapIndex Spec.HString;
               Spec.HeapIndex Spec.HBlob; Spec.HeapIndex Spec.HGUID;
               Spec.CodedRef "TypeDefOrRef"; Spec.TableRef "tableModule";
               Spec.RowRange "tableField"])
    as (_ & _ & Htext & _ & Hval).
  - now left.
  - reflexivity.
  - destruct (Hval Examples.la4) as (Hv & _ & Hsum & _).
    split; [exact Hv|]. split.
    + apply Hsum.
      * exact la4_uint8.
      * discriminate.
      * intros f Hf. simpl in Hf.
        repeat (destruct Hf as [<-|Hf]; [reflexivity|]). destruct Hf.
      * vm_compute. discriminate.
    + rewrite Htext. reflexivity.
Defined.

(** A table without fields has the sum 0 in the data model, but its case
    prints [return] with nothing behind it, which has no value; and a
    string index with 63 four-byte integers adds up to 256 while the
    printed formula yields 0. *)
Lemma C1_counterexample :
  (map Spec.kindOf (fields Examples.bare) = map Some [] /\
   fold_right Z.add 0
     (map (Spec.fieldWidth (Spec.contextOf Examples.la4)) []) = 0 /\
   Width.renderCase Examples.bare
   = (tab ++ "case tableBare:" ++ nl ++ tab ++ tab ++ "return " ++ nl)%string
   /\
   Width.evalFormula Examples.la4 (Width.formulaOf Examples.bare) = None) /\
  (fold_right Z.add 0
     (map (Width.termValue Examples.la4) (Width.formulaOf Examples.wide))
   = 256 /\
   Width.evalFormula Examples.la4 (Width.formulaOf Examples.wide) = Some 0).
Proof. repeat split; vm_compute; reflexivity. Qed.


(** X8: for a table with at least one field, all of a kind of the data
    model and of a supported unsigned size, and a layout of [uint8] widths
    at which the field widths add up to at most 255, Go accepts the printed
    formula and its value is exactly the sum of the field widths. *)
Theorem width_exact_when_small :
  forall (t : tableInfo) (la : layout),
    uint8_layout la ->
    fields t <> [] ->
    (forall f, In f (fields t) ->
               Spec.kindOf f <> None /\ Decode.uintSizeOK f = true) ->
    Width.exactWidth la (Width.formulaOf t) <= 255 ->
    Width.evalFormula la (Width.formulaOf t)
    = Some (Width.exactWidth la (Width.formulaOf t)).
Proof.
  intros t la Hla Hne Hk Hsmall.
  assert (Hall : Forall (fun w => Width.printed w = true /\
                                  Width.laterOK w = true /\
                                  0 <= Width.termValue la w)
                        (Width.formulaOf t)).
  { unfold Width.formulaOf. apply Forall_forall. intros w Hw.
    apply in_map_iff in Hw as (f & <- & Hf).
    destruct (Hk f Hf) as (H1 & H2). now apply termOf_good. }
  rewrite (evalFormula_char la Hla).
  rewrite (good_accepted la); [| |exact Hall|exact Hsmall].
  - f_equal. apply wrap8_small. unfold Width.fits8.
    pose proof (good_nonneg la _ Hall). apply andb_true_iff. split; lia.
  - unfold Width.formulaOf. destruct (fields t); [contradiction|discriminate].
Qed.

(** The table with a field of every kind under four-byte indices: 28. *)
Lemma width_exact_witness :
  Width.evalFormula Examples.la4 (Width.formulaOf Examples.allKinds)
  = Some 28.
Proof.
  apply (width_exact_when_small Examples.allKinds Examples.la4).
  - exact la4_uint8.
  - discriminate.
  - intros f Hf. simpl in Hf.
    repeat (destruct Hf as [<-|Hf]; [split; [discriminate|reflexivity]|]).
    destruct Hf.
  - vm_compute. discriminate.
Defined.

Lemma const_formula (la : layout) (ns : list Z) :
  Width.constPrefix (map Width.TConst ns) = (fold_right Z.add 0 ns, []) /\
  Width.exactWidth la (map Width.TConst ns) = fold_right Z.add 0 ns /\
  Forall (fun w => Width.printed w = true) (map Width.TConst ns).
Proof.
  induction ns as [|n ns (IH1 & IH2 & IH3)];
    [repeat split; constructor|].
  simpl. rewrite IH1, exactWidth_cons, IH2. repeat split.
  constructor; [reflexivity|exact IH3].
Qed.

(** X7: the width of a table made of unsigned integers only does not
    depend on the layout: it is the sum of the sizes when the table has a
    field and the sum is in [0,255], and the printed method has no value
    otherwise. *)
Theorem integer_only_width :
  forall (t : tableInfo) (la : layout),
    (forall f, In f (fields t) -> fcolumnType f = columnTypeUint) ->
    Width.evalFormula la (Width.formulaOf t)
    = match fields t with
      | [] => None
      | _ => if Width.fits8 (fold_right Z.add 0 (map size (fields t)))
             then Some (fold_right Z.add 0 (map size (fields t)))
             else None
      end.
Proof.
  intros t la Hu.
  assert (Hf : Width.formulaOf t = map Width.TConst (map size (fields t))).
  { unfold Width.formulaOf. rewrite map_map. apply map_ext_in.
    intros f Hin. unfold Width.termOf. now rewrite (Hu f Hin). }
  rewrite Hf. destruct (fields t) as [|f fs]; [reflexivity|].
  set (ns := map size (f :: fs)).
  destruct (const_formula la ns) as (Hc & He & Hp).
  unfold Width.evalFormula.
  rewrite endsEmpty_printed, printedTerms_all by exact Hp.
  subst ns. simpl map in *. unfold Width.evalPrinted.
  simpl Width.operandOf. cbv iota beta.
  rewrite addAll_untyped.
  destruct (const_formula la (map size fs)) as (Hc' & He' & _).
  rewrite Hc', He'. simpl fst. simpl snd. simpl forallb.
  rewrite andb_true_r. simpl fold_right.
  destruct (Width.fits8 (size f + fold_right Z.add 0 (map size fs))) eqn:Hfit;
    [|reflexivity].
  now rewrite wrap8_small.
Qed.

(** The single-table scenario: the constant 2. *)
Lemma integer_only_width_witness :
  Width.evalFormula Examples.la4 (Width.formulaOf Examples.single) = Some 2.
Proof.
  rewrite (integer_only_width Examples.single Examples.la4).
  - reflexivity.
  - intros f [<-|[]]. reflexivity.
Defined.

(* ================================================================== *)
(** ** The method [table] and the whole text *)
(* ================================================================== *)

Lemma writeTableImpl_methods (tables : list tableInfo) (w : string) :
  Genlayout.writeTableImpl tables w
  = Done (tt, (w ++ Printed.renderMethods (Printed.methodsOf tables))%string).
Proof.
  rewrite writeTableImpl_prints. unfold Printed.renderMethods,
    Printed.methodsOf, Printed.renderMethod.
  rewrite map_map. simpl. reflexivity.
Qed.

Lemma tableMethod_In (tables : list tableInfo) (t : tableInfo) :
  NoDup (map name tables) -> In t tables ->
  Printed.tableMethod (Printed.methodsOf tables) (name t)
  = Some (tableName t).
Proof.
  induction tables as [|a l IH]; intros Hnd Hin; [contradiction|].
  simpl in Hnd. apply NoDup_cons_iff in Hnd as [Ha Hnd]. simpl.
  destruct Hin as [->|Hin].
  - now rewrite String.eqb_refl.
  - destruct (String.eqb_spec (name a) (name t)) as [E|_].
    + exfalso. apply Ha. rewrite E. now apply in_map.
    + now apply IH.
Qed.

(** X9: [writeTableImpl] prints a method [table] for every table, visible
    or not.  With unique struct names the method of a table returns that
    table's own constant, and every accessor of [initTables] is created
    with the constant the method of its struct returns. *)
Theorem table_method_matches_registry :
  forall (tables : list tableInfo) (w : string),
    NoDup (map name tables) ->
    Genlayout.writeTableImpl tables w
    = Done (tt, (w ++ Printed.renderMethods (Printed.methodsOf tables))%string)
    /\
    List.length (Printed.methodsOf tables) = List.length tables /\
    (forall t, In t tables ->
               Printed.tableMethod (Printed.methodsOf tables) (name t)
               = Some (tableName t)) /\
    (forall a, In a (Registry.accessorsOf tables) ->
               Printed.tableMethod (Printed.methodsOf tables)
                                   (Registry.member a)
               = Some (Registry.idConst a)).
Proof.
  intros tables w Hnd.
  split; [apply writeTableImpl_methods|].
  split; [unfold Printed.methodsOf; apply length_map|].
  split; [intros t Ht; now apply tableMethod_In|].
  intros a Ha. unfold Registry.accessorsOf in Ha.
  apply in_map_iff in Ha as (t & <- & Ht).
  apply filter_In in Ht as [Ht _]. simpl. now apply tableMethod_In.
Qed.

Lemma table_method_witness :
  Printed.tableMethod
    (Printed.methodsOf [Examples.shown; Examples.hidden]) "b"
  = Some "tableB"%string.
Proof.
  destruct (table_method_matches_registry
              [Examples.shown; Examples.hidden] "") as (_ & _ & Hm & _).
  - repeat constructor; simpl; intuition discriminate.
  - apply (Hm Examples.hidden). right. now left.
Defined.



(* ================================================================== *)
(** ** What [main] writes *)
(* ================================================================== *)

(** X11: when the writing half of [main] does not reach its end, [main]
    ends before the formatter and [os.WriteFile] are called: no file is
    written, not even a rejected one, and nothing is logged.  With no
    table [main] ends in the panic of the index out of range; otherwise
    some unsigned column has an unsupported size and [main] ends in
    [log.Fatalf] with the size of the first such column, in table and
    field order. *)
Theorem main_failed_run_writes_nothing :
  forall (Source : string -> string * option string)
         (writeError : string -> option string)
         (tables : list tableInfo) (w : Main.world),
    Genlayout.succeeded (Genlayout.generate tables) = false ->
    fst (Main.main Source writeError tables w) = w /\
    snd (Main.main Source writeError tables w) <> Main.Finished /\
    (tables = [] ->
     Main.main Source writeError tables w
     = (w, Main.EndPanic "runtime error: index out of range [-1]")) /\
    (tables <> [] ->
     exists pre t post fpre f fpost,
       tables = (pre ++ t :: post)%list /\
       (forall t' f', In t' pre -> In f' (fields t') ->
                      Decode.uintSizeOK f' = true) /\
       fields t = (fpre ++ f :: fpost)%list /\
       (forall f', In f' fpre -> Decode.uintSizeOK f' = true) /\
       Decode.uintSizeOK f = false /\
       Main.main Source writeError tables w
       = (w, Main.EndFatal ("unsupported uint size " ++ Itoa (size f)))).
Proof.
  intros Source writeError tables w Hfail.
  split; [|split; [|split]].
  - unfold Main.main.
    destruct (Genlayout.generate tables) as [[u buf]|m|m];
      [discriminate|reflexivity|reflexivity].
  - unfold Main.main.
    destruct (Genlayout.generate tables) as [[u buf]|m|m];
      [discriminate| |]; simpl; discriminate.
  - intros ->. reflexivity.
  - intros Hne.
    destruct (forallb (fun t => forallb Decode.uintSizeOK (fields t)) tables)
      eqn:Hall.
    + exfalso.
      destruct (generate_done tables Hne) as (text & Hg).
      * intros t f Ht Hf. rewrite forallb_forall in Hall.
        specialize (Hall t Ht). rewrite forallb_forall in Hall.
        now apply Hall.
      * rewrite Hg in Hfail. discriminate.
    + destruct (generate_fatal_first tables Hne Hall)
        as (pre & t & post & fpre & f & fpost & H1 & H2 & H3 & H4 & H5 & Hg).
      exists pre, t, post, fpre, f, fpost.
      do 5 (split; [assumption|]).
      unfold Main.main. now rewrite Hg.
Qed.

Lemma main_failed_run_witness :
  Main.main Cases.keep Cases.allWritable [Examples.single; Cases.odd3]
            Cases.emptyWorld
  = (Cases.emptyWorld, Main.EndFatal "unsupported uint size 3").
Proof.
  destruct (main_failed_run_writes_nothing Cases.keep Cases.allWritable
              [Examples.single; Cases.odd3] Cases.emptyWorld) as (Hw & _).
  - reflexivity.
  - destruct (Main.main Cases.keep Cases.allWritable
                [Examples.single; Cases.odd3] Cases.emptyWorld)
      as [w e] eqn:Hm.
    simpl in Hw. subst w. f_equal.
    assert (He : e = snd (Main.main Cases.keep Cases.allWritable
                            [Examples.single; Cases.odd3] Cases.emptyWorld))
      by now rewrite Hm.
    rewrite He. reflexivity.
Defined.

(** X12: when the writing half of [main] reaches its end with buffer
    [buf] and [zlayout.go] can be written: if the formatter accepts [buf],
    [main] returns normally, [zlayout.go] receives the formatted text and
    nothing else is written or logged; if the formatter reports an error
    and [zlayout.go.reject] can be written too, [main] returns normally,
    [zlayout.go.reject] receives the unformatted [buf], two warnings are
    logged, and [zlayout.go] is still written, with whatever the formatter
    returned. *)
Theorem main_writes_output :
  forall (Source : string -> string * option string)
         (writeError : string -> option string)
         (tables : list tableInfo) (w : Main.world) (buf src : string),
    Genlayout.generate tables = Done (tt, buf) ->
    writeError "zlayout.go"%string = None ->
    (Source buf = (src, None) ->
     Main.main Source writeError tables w
     = (Main.mkWorld (("zlayout.go", src) :: Main.files w)%string
                     (Main.logged w),
        Main.Finished)) /\
    (forall e,
        Source buf = (src, Some e) ->
        writeError "zlayout.go.reject"%string = None ->
        Main.main Source writeError tables w
        = (Main.mkWorld
             (("zlayout.go", src) :: ("zlayout.go.reject", buf)
                :: Main.files w)%string
             (Main.logged w
              ++ ["warning: internal error: invalid Go generated: " ++ e;
                  "warning: compile the package to analyze the error"]%string),
           Main.Finished)).
Proof.
  intros Source writeError tables w buf src Hg Hz.
  unfold Main.main, Main.formatSource, Main.WriteFile, Main.Printf.
  rewrite Hg. split.
  - intros ->. simpl. now rewrite Hz.
  - intros e -> Hr. simpl. rewrite Hr, Hz. simpl.
    now rewrite <- app_assoc.
Qed.

Lemma main_writes_output_witness :
  exists buf,
    Genlayout.generate [Examples.single] = Done (tt, buf) /\
    Main.main Cases.reject Cases.allWritable [Examples.single]
              Cases.emptyWorld
    = (Main.mkWorld [("zlayout.go", ""); ("zlayout.go.reject", buf)]%string
         ["warning: internal error: invalid Go generated: syntax error";
          "warning: compile the package to analyze the error"]%string,
       Main.Finished).
Proof.
  destruct (Genlayout.generate [Examples.single]) as [[[] buf]|m|m] eqn:Hg;
    [|vm_compute in Hg; discriminate|vm_compute in Hg; discriminate].
  exists buf. split; [reflexivity|].
  destruct (main_writes_output Cases.reject Cases.allWritable
              [Examples.single] Cases.emptyWorld buf "" Hg eq_refl)
    as (_ & Hrej).
  apply (Hrej "syntax error"%string); reflexivity.
Defined.

(** X13: a write that fails ends [main] in a fatal error.  If the rejected
    buffer cannot be written, [main] stops with [writing rejected output]
    and never writes [zlayout.go]; if [zlayout.go] itself cannot be written
    after a clean format, [main] stops with [writing output]. *)
Theorem main_stops_on_write_error :
  forall (Source : string -> string * option string)
         (writeError : string -> option string)
         (tables : list tableInfo) (w : Main.world) (buf src : string),
    Genlayout.generate tables = Done (tt, buf) ->
    (forall e e',
        Source buf = (src, Some e) ->
        writeError "zlayout.go.reject"%string = Some e' ->
        snd (Main.main Source writeError tables w)
        = Main.EndFatal ("writing rejected output: " ++ e') /\
        Main.files (fst (Main.main Source writeError tables w))
        = Main.files w) /\
    (forall e',
        Source buf = (src, None) ->
        writeError "zlayout.go"%string = Some e' ->
        Main.main Source writeError tables w
        = (w, Main.EndFatal ("writing output: " ++ e'))).
Proof.
  intros Source writeError tables w buf src Hg.
  unfold Main.main, Main.formatSource, Main.WriteFile, Main.Printf.
  rewrite Hg. split.
  - intros e e' -> Hr. simpl. rewrite Hr. simpl. split; reflexivity.
  - intros e' -> Hz. simpl. now rewrite Hz.
Qed.

Lemma main_stops_on_write_error_witness :
  exists buf,
    Genlayout.generate [Examples.single] = Done (tt, buf) /\
    Main.main Cases.keep (fun _ => Some "read-only file system"%string)
              [Examples.single] Cases.emptyWorld
    = (Cases.emptyWorld,
       Main.EndFatal "writing output: read-only file system").
Proof.
  destruct (Genlayout.generate [Examples.single]) as [[[] buf]|m|m] eqn:Hg;
    [|vm_compute in Hg; discriminate|vm_compute in Hg; discriminate].
  exists buf. split; [reflexivity|].
  destruct (main_stops_on_write_error Cases.keep
              (fun _ => Some "read-only file system"%string)
              [Examples.single] Cases.emptyWorld buf buf Hg) as (_ & Hz).
  apply (Hz "read-only file system"%string); reflexivity.
Defined.
